(** * Trio resolution of the Penrose plugin for Obsidian

    A shallow embedding of [extractMetadata] and [getTrio] of
    [src/main.ts], with the pieces of the JavaScript run time they rest
    on: strings as sequences of UTF-16 code units, [String.prototype.split],
    [String.prototype.trim], [String.prototype.match] for the four regular
    expression literals of the source, the [this] binding of an arrow
    function, and promises as the outcome they settle to. *)

From Stdlib Require Import NArith List Bool Ascii String Lia.
From Stdlib Require DecimalString DecimalNat.
From stdpp Require Import gmap.
Import ListNotations.

Local Open Scope N_scope.
Local Open Scope list_scope.

(** ** JavaScript strings *)

Module JS.

(** A string is a sequence of UTF-16 code units. *)
Definition char16 := N.
Definition jsstring := list char16.

(** A string literal of the source, all of whose characters are ASCII. *)
Definition lit (s : string) : jsstring :=
  map N_of_ascii (list_ascii_of_string s).

Definition LF : char16 := 10.
Definition CR : char16 := 13.

(** LineTerminator of ECMA-262: LF, CR, LS and PS. *)
Definition isLineTerminator (c : char16) : bool :=
  (c =? 10) || (c =? 13) || (c =? 8232) || (c =? 8233).

(** WhiteSpace of ECMA-262: TAB, VT, FF, ZWNBSP and the space separators
    (category Zs). *)
Definition isWhiteSpaceOnly (c : char16) : bool :=
  (c =? 9) || (c =? 11) || (c =? 12) || (c =? 32) || (c =? 160)
  || (c =? 5760) || ((8192 <=? c) && (c <=? 8202))
  || (c =? 8239) || (c =? 8287) || (c =? 12288) || (c =? 65279).

(** The class [\s] of a regular expression and the characters [trim]
    strips: WhiteSpace and LineTerminator. *)
Definition isSpace (c : char16) : bool :=
  isWhiteSpaceOnly c || isLineTerminator c.

(** The class [.] of a regular expression without the [s] flag. *)
Definition isDot (c : char16) : bool := negb (isLineTerminator c).

Fixpoint takeWhile (p : char16 -> bool) (s : jsstring) : jsstring :=
  match s with
  | c :: s' => if p c then c :: takeWhile p s' else []
  | [] => []
  end.

Fixpoint dropWhile (p : char16 -> bool) (s : jsstring) : jsstring :=
  match s with
  | c :: s' => if p c then dropWhile p s' else s
  | [] => []
  end.

(** What is left of [s] after the prefix [pre], when [s] starts with it. *)
Fixpoint stripPrefix (pre s : jsstring) : option jsstring :=
  match pre with
  | [] => Some s
  | c :: pre' =>
      match s with
      | c' :: s' => if c =? c' then stripPrefix pre' s' else None
      | [] => None
      end
  end.

(** [String.prototype.trimStart], [trimEnd] and [trim]. *)
Definition trimStart (s : jsstring) : jsstring := dropWhile isSpace s.
Definition trimEnd (s : jsstring) : jsstring := rev (dropWhile isSpace (rev s)).
Definition trim (s : jsstring) : jsstring := trimEnd (trimStart s).

(** [s.split("\n")]: the pieces between the line feeds, in order; a string
    without a line feed, the empty one too, is its only piece. *)
Fixpoint split_LF (s : jsstring) : list jsstring :=
  match s with
  | [] => [[]]
  | c :: s' =>
      if c =? LF then [] :: split_LF s'
      else match split_LF s' with
           | l :: ls => (c :: l) :: ls
           | [] => [[c]]
           end
  end.

End JS.
Import JS.

(** ** Regular expressions

    The four regular expression literals of [extractMetadata] are sequences
    of literal characters, one greedy star of the class [\s] and one capturing
    group around a greedy star of the class [.].
    The matcher is the backtracking matcher of ECMA-262 on that fragment,
    in continuation-passing style. *)

Module RegExp.

Inductive Atom :=
| Char (c : char16)                 (* a pattern character *)
| Star (cls : char16 -> bool)       (* greedy star of a class *)
| GroupStar (cls : char16 -> bool). (* the same inside capturing group 1 *)

Definition Pattern := list Atom.

Definition chars (s : string) : Pattern := map Char (lit s).

(** Greedy repetition: take one more character of the class and go on; when
    the rest of the pattern then fails, or no character of the class is
    left, try the continuation [k] here. [taken] is what the repetition has
    consumed so far. *)
Fixpoint star {R : Type} (cls : char16 -> bool)
    (k : jsstring -> jsstring -> option R) (taken s : jsstring) : option R :=
  match s with
  | c :: s' =>
      if cls c then
        match star cls k (taken ++ [c]) s' with
        | Some r => Some r
        | None => k taken s
        end
      else k taken s
  | [] => k taken []
  end.

(** [matchAt p s g] matches [p] at the start of [s]; [g] is the capture of
    group 1 so far, and the result is the capture when the match is
    complete. *)
Fixpoint matchAt (p : Pattern) (s : jsstring) (g : jsstring) : option jsstring :=
  match p with
  | [] => Some g
  | Char c :: p' =>
      match s with
      | c' :: s' => if c =? c' then matchAt p' s' g else None
      | [] => None
      end
  | Star cls :: p' => star cls (fun _ rest => matchAt p' rest g) [] s
  | GroupStar cls :: p' => star cls (fun taken rest => matchAt p' rest taken) [] s
  end.

(** [RegExp.prototype.exec] for a pattern without the [g] and [y] flags:
    the match at the least start index, the end of the string included. *)
Fixpoint exec (p : Pattern) (s : jsstring) : option jsstring :=
  match matchAt p s [] with
  | Some g => Some g
  | None =>
      match s with
      | [] => None
      | _ :: s' => exec p s'
      end
  end.

End RegExp.
Import RegExp.

(** [line.match(re)] for a pattern without the [g] flag: [None] is [null],
    [Some g] a result array whose element [1] is [g]. *)
Definition String_match (line : jsstring) (re : Pattern) : option jsstring :=
  exec re line.

(** ** Data model *)

Module Alias.
Record t := mk { domain : jsstring; style : jsstring }.
End Alias.

(** [interface AliasConfig { [alias: string]: Alias }]: an object used as a
    map from alias names to entries. *)
Abbreviation AliasConfig := (gmap jsstring Alias.t).

Record PenroseSettings := {
  mySetting : jsstring;
  aliases : AliasConfig
}.

Definition DEFAULT_SETTINGS : PenroseSettings :=
  {| mySetting := lit "default"; aliases := ∅ |}.

Record PenrosePlugin := { settings : PenroseSettings }.

Record PenroseSettingTab := { plugin : PenrosePlugin }.

Module Meta.
Record t := mk { style : jsstring; domain : jsstring; variation : jsstring }.
End Meta.

Module Trio.
Record t := mk {
  substance : jsstring;
  style : jsstring;
  domain : jsstring;
  variation : jsstring
}.
End Trio.

(** ** Exceptions, completions and promises *)

Inductive Exn :=
| TypeError
| HostError (reason : jsstring).

(** How the evaluation of a statement list ends. *)
Inductive Completion (A : Type) :=
| Normal (a : A)
| Throw (e : Exn).
Arguments Normal {A} a.
Arguments Throw {A} e.

(** A promise, as the outcome it settles to. *)
Inductive Promise (A : Type) :=
| Fulfilled (a : A)
| Rejected (e : Exn).
Arguments Fulfilled {A} a.
Arguments Rejected {A} e.

(** ** The value of [this]

    [extractMetadata] and the callback it hands to [forEach] are arrow
    functions, so [this] in [this.plugin.settings.aliases] is the [this] of
    the scope around them. [extractMetadata] is declared at the top level
    of [main.ts], an ECMAScript module, where [this] is [undefined]. The
    other value is the receiver the expression is written for, a settings
    tab, as in [PenroseSettingTab.display]. *)
Inductive This :=
| ThisUndefined
| ThisSettingTab (tab : PenroseSettingTab).

Definition module_this : This := ThisUndefined.

(** ** The local variables of [extractMetadata]

    [let domain], [let style], [let variation] and [let aliasName], which
    the callback of [forEach] closes over and assigns. *)
Record Locals := {
  domain : jsstring;
  style : jsstring;
  variation : jsstring;
  aliasName : jsstring
}.

(** A statement list over these variables: the variables are updated in
    place, and keep the assignments made before a throw. *)
Definition Body (A : Type) : Type := Locals -> Completion A * Locals.

#[global] Instance Body_ret : MRet Body := fun A a st => (Normal a, st).
#[global] Instance Body_bind : MBind Body := fun A B f m st =>
  match m st with
  | (Normal a, st') => f a st'
  | (Throw e, st') => (Throw e, st')
  end.

Definition throw {A : Type} (e : Exn) : Body A := fun st => (Throw e, st).

Definition get_aliasName : Body jsstring := fun st => (Normal (aliasName st), st).

Definition set_domain (v : jsstring) : Body unit := fun st =>
  (Normal tt, {| domain := v; style := style st;
                 variation := variation st; aliasName := aliasName st |}).
Definition set_style (v : jsstring) : Body unit := fun st =>
  (Normal tt, {| domain := domain st; style := v;
                 variation := variation st; aliasName := aliasName st |}).
Definition set_variation (v : jsstring) : Body unit := fun st =>
  (Normal tt, {| domain := domain st; style := style st;
                 variation := v; aliasName := aliasName st |}).
Definition set_aliasName (v : jsstring) : Body unit := fun st =>
  (Normal tt, {| domain := domain st; style := style st;
                 variation := variation st; aliasName := v |}).

(** An [async] function: a throw of the body is the rejection of the
    promise the call returns. The bodies here have no [await], so they run
    to their end within the call. *)
Definition async {A : Type} (body : Body A) (st : Locals) : Promise A * Locals :=
  match body st with
  | (Normal a, st') => (Fulfilled a, st')
  | (Throw e, st') => (Rejected e, st')
  end.

(** [Array.prototype.forEach]: the callback is called on each element in
    order, and what it returns, here a promise, is dropped. *)
Fixpoint forEach {A S R : Type} (cb : A -> S -> R * S) (l : list A) (st : S) : S :=
  match l with
  | [] => st
  | x :: l' => forEach cb l' (snd (cb x st))
  end.

(** ** [extractMetadata] *)

(** [this.plugin.settings.aliases[aliasName]]: reading a property of
    [undefined] throws a TypeError; a name the table does not have gives
    [undefined], here [None]. *)
Definition this_plugin_settings_aliases (this_ : This) (name : jsstring)
  : Body (option Alias.t) :=
  match this_ with
  | ThisUndefined => throw TypeError
  | ThisSettingTab tab => mret (aliases (settings (plugin tab)) !! name)
  end.

(** The regular expression literals [alias], [domainRegex], [styleRegex] and
    [variationRegex]: two hyphens, any run of [\s], the tag with its colon,
    and group 1 around any run of [.]. *)
Definition alias : Pattern :=
  chars "--" ++ [Star isSpace] ++ chars "alias:" ++ [GroupStar isDot].
Definition domainRegex : Pattern :=
  chars "--" ++ [Star isSpace] ++ chars "domain:" ++ [GroupStar isDot].
Definition styleRegex : Pattern :=
  chars "--" ++ [Star isSpace] ++ chars "style:" ++ [GroupStar isDot].
Definition variationRegex : Pattern :=
  chars "--" ++ [Star isSpace] ++ chars "variation:" ++ [GroupStar isDot].

Definition initial : Locals :=
  {| domain := []; style := []; variation := []; aliasName := [] |}.

(** The four [if] statements of the callback. *)
Definition aliasStep (this_ : This) (line : jsstring) : Body unit :=
  match String_match line alias with
  | Some aliasMatch =>
      set_aliasName (trim aliasMatch) ;;
      name ← get_aliasName;
      aliasConfig ← this_plugin_settings_aliases this_ name;
      match aliasConfig with
      | Some cfg => set_domain (Alias.domain cfg) ;; set_style (Alias.style cfg)
      | None => mret tt
      end
  | None => mret tt
  end.

Definition domainStep (line : jsstring) : Body unit :=
  match String_match line domainRegex with
  | Some domainMatch => set_domain (trim domainMatch)
  | None => mret tt
  end.

Definition styleStep (line : jsstring) : Body unit :=
  match String_match line styleRegex with
  | Some styleMatch => set_style (trim styleMatch)
  | None => mret tt
  end.

Definition variationStep (line : jsstring) : Body unit :=
  match String_match line variationRegex with
  | Some variationMatch => set_variation (trim variationMatch)
  | None => mret tt
  end.

(** [async (line) => { ... }], the callback of [lines.forEach]. *)
Definition callback (this_ : This) (line : jsstring) : Locals -> Promise unit * Locals :=
  async (aliasStep this_ line ;; domainStep line ;; styleStep line ;; variationStep line).

(** The variables when [forEach] has returned. *)
Definition locals_at_return (this_ : This) (substance : jsstring) : Locals :=
  let lines := split_LF substance in
  forEach (callback this_) lines initial.

(** [extractMetadata]: an [async] function whose body neither awaits nor
    throws; it returns [{ style, domain, variation }]. *)
Definition extractMetadata (this_ : This) (substance : jsstring) : Promise Meta.t :=
  let st := locals_at_return this_ substance in
  Fulfilled {| Meta.style := style st; Meta.domain := domain st;
               Meta.variation := variation st |}.

(** ** [getTrio]

    [readFile] is a capability of the host: a call acts on the host's
    state, of some type [W], and returns a promise. *)

Section GetTrio.

Context {W : Type}.

Definition Async (A : Type) : Type := W -> Promise A * W.

#[global] Instance Async_ret : MRet Async := fun A a w => (Fulfilled a, w).
(** [await]: a rejection of the awaited promise is thrown, and rejects the
    promise of the function around it. *)
#[global] Instance Async_bind : MBind Async := fun A B f m w =>
  match m w with
  | (Fulfilled a, w') => f a w'
  | (Rejected e, w') => (Rejected e, w')
  end.

(** A promise that is already there. *)
Definition settled {A : Type} (p : Promise A) : Async A := fun w => (p, w).

Definition getTrio (this_ : This) (source : jsstring)
    (readFile : jsstring -> Async jsstring) : Async Trio.t :=
  res ← settled (extractMetadata this_ source);
  style ← readFile (Meta.style res);
  domain ← readFile (Meta.domain res);
  mret {| Trio.substance := source; Trio.style := style;
          Trio.domain := domain; Trio.variation := Meta.variation res |}.

End GetTrio.

Arguments Async W A : clear implicits.

(** ** Notions the properties are stated with *)

Definition matches (line : jsstring) (re : Pattern) : bool :=
  match String_match line re with Some _ => true | None => false end.

(** The patterns of [extractMetadata] a line matches. *)
Definition matching_patterns (line : jsstring) : list Pattern :=
  List.filter (matches line) [alias; domainRegex; styleRegex; variationRegex].

(** A line of the form [-- tag: value]: somewhere in the line the comment
    prefix [--], then white space or none, the tag with its colon, and
    [value], the text from the colon to the end of the line. *)
Definition AnnotationLine (tag : string) (line value : jsstring) : Prop :=
  exists before ws : jsstring,
    line = before ++ lit "--" ++ ws ++ lit tag ++ value /\
    forallb isSpace ws = true.

Definition tags : list string := ["alias:"; "domain:"; "style:"; "variation:"]%string.


(** The pattern of the tag [tag], of which the four literals are
    instances. *)
Definition tagged (tag : string) : Pattern :=
  chars "--" ++ [Star isSpace] ++ chars tag ++ [GroupStar isDot].

(** A tag that starts with a character outside [\s], as the four do. *)
Definition starts_outside_space (tag : string) : Prop :=
  match lit tag with
  | c :: _ => isSpace c = false
  | [] => False
  end.

(** What a match of [tagged tag] at the start of [s] comes to: skip the
    hyphens and the white space, read the tag, capture up to the next line
    terminator. *)
Definition tagAt (tag : jsstring) (s : jsstring) : option jsstring :=
  match stripPrefix (lit "--") s with
  | Some r =>
      match stripPrefix tag (dropWhile isSpace r) with
      | Some v => Some (takeWhile isDot v)
      | None => None
      end
  | None => None
  end.




(** The lines of a text that the pattern [alias] does not match. *)
Definition lines_without_alias (source : jsstring) : list jsstring :=
  List.filter (fun line => negb (matches line alias)) (split_LF source).


(** A line with two annotations. *)
Definition line_with_two_tags : jsstring := lit "-- domain: a -- style: b".

(** At most one of the four patterns matches the line. *)
Definition at_most_one_pattern (line : jsstring) : Prop :=
  (length (matching_patterns line) <= 1)%nat.

(** The patterns that match at the start of [s]. *)
Definition matching_at_start (s : jsstring) : list Pattern :=
  List.filter (fun re => match matchAt re s [] with Some _ => true | None => false end)
    [alias; domainRegex; styleRegex; variationRegex].

(** The number of places of a line where the comment prefix [--] starts. *)
Fixpoint hyphen_pairs (s : jsstring) : nat :=
  match s with
  | [] => 0%nat
  | _ :: s' =>
      ((match stripPrefix (lit "--") s with Some _ => 1 | None => 0 end)
       + hyphen_pairs s')%nat
  end.


(** Two states of the variables that agree on what [extractMetadata]
    returns. *)
Definition same_meta (a b : Locals) : Prop :=
  domain a = domain b /\ style a = style b /\ variation a = variation b.

(** A reader that records the paths it is called with, after the state of
    the host. *)
Definition spy {W : Type} (readFile : jsstring -> Async W jsstring)
  : jsstring -> Async (W * list jsstring) jsstring :=
  fun path '(w, log) =>
    let '(p, w') := readFile path w in (p, (w', log ++ [path])).

(** A reader that keeps to its contract: every call resolves, to the body
    of the document or to the empty string. *)
Definition never_rejects {W : Type} (readFile : jsstring -> Async W jsstring) : Prop :=
  forall path w, exists body, fst (readFile path w) = Fulfilled body.

(** A host with the documents [files]: a path it has resolves to the body,
    any other to the empty string, with a message left in the view. *)
Definition reader_of (files : gmap jsstring jsstring)
  : jsstring -> Async (list jsstring) jsstring :=
  fun path el =>
    match files !! path with
    | Some body => (Fulfilled body, el)
    | None => (Fulfilled [], el ++ [lit "Error reading file " ++ path])
    end.

(** What [getTrio] returns when the two calls of the reader resolve to
    [style] and [domain]. *)
Definition trio_of (this_ : This) (source style domain : jsstring) : Trio.t :=
  {| Trio.substance := source; Trio.style := style; Trio.domain := domain;
     Trio.variation := variation (locals_at_return this_ source) |}.

(** ** Examples *)

(** The alias table [{ foo: { domain: "D1", style: "S1" } }]. *)
Definition aliases_foo : AliasConfig :=
  <[lit "foo" := Alias.mk (lit "D1") (lit "S1")]> ∅.

Definition tab_foo : PenroseSettingTab :=
  {| plugin := {| settings := {| mySetting := lit "default";
                                 aliases := aliases_foo |} |} |}.

Definition alias_then_domain : jsstring :=
  lit "-- alias: foo" ++ [LF] ++ lit "-- domain: D2".
Definition domain_then_alias : jsstring :=
  lit "-- domain: D2" ++ [LF] ++ lit "-- alias: foo".

Definition files_D1_S1 : gmap jsstring jsstring :=
  <[lit "D1" := lit "type Set"]> (<[lit "S1" := lit "canvas { width = 800 }"]> ∅).

(** ** The code block processor of [onload]

    The processor registered for [penrose] blocks: it reads the trio with
    [getTrio] and a reader over the vault, then compiles, optimizes and
    renders, and shows an error as text in the block. The vault and the
    three services of [@penrose/core] are outside the file; they are taken
    as they are declared. *)

Record TFile := { TFile_path : jsstring }.

(** What [getAbstractFileByPath] returns when it returns an object: a file,
    for which [instanceof TFile] holds, or a folder. *)
Inductive TAbstractFile :=
| IsFile (file : TFile)
| IsFolder.

Record Vault := {
  getAbstractFileByPath : jsstring -> option TAbstractFile;
  read : TFile -> Promise jsstring
}.

Record App := { vault : Vault }.

(** [Result] of [@penrose/core]: [isErr()] holds of [Err]. *)
Inductive Result (V E : Type) :=
| Ok (value : V)
| Err (error : E).
Arguments Ok {V E} value.
Arguments Err {V E} error.

Section Processor.

Context {Compiled Optimized PenroseError SVG : Type}.

(** The children of the element of the block. *)
Inductive Node :=
| TextNode (text : jsstring)
| SVGNode (svg : SVG).

(** The arguments of the calls of [console.error]. *)
Inductive Logged :=
| LogText (msg : jsstring)
| LogError (error : PenroseError).

Record View := { el : list Node; console : list Logged }.

Variable compile : Trio.t -> Promise (Result Compiled PenroseError).
Variable optimize : Compiled -> Result Optimized PenroseError.
Variable showError : PenroseError -> jsstring.
(** [toSVG] at the path resolver and the name space of the source. *)
Variable toSVG : Optimized -> Promise SVG.
(** The conversion of a caught error to a string in a template literal. *)
Variable ToString : Exn -> jsstring.

Definition appendChild (n : Node) : Async View unit := fun v =>
  (Fulfilled tt, {| el := el v ++ [n]; console := console v |}).

Definition console_error (l : Logged) : Async View unit := fun v =>
  (Fulfilled tt, {| el := el v; console := console v ++ [l] |}).

(** The reader the processor hands to [getTrio]; [this] is the plugin
    there, of which [this.app] is read. *)
Definition onload_readFile (app : App) (path : jsstring) : Async View jsstring :=
  match getAbstractFileByPath (vault app) path with
  | Some (IsFile file) =>
      fun v =>
        match read (vault app) file with
        | Fulfilled fileContents => (Fulfilled fileContents, v)
        | Rejected error =>
            let msg := lit "Error reading file " ++ path ++ lit ": " ++ ToString error in
            (console_error (LogText msg) ;; appendChild (TextNode msg) ;; mret []) v
        end
  | _ =>
      let msg := lit "Error reading file " ++ path in
      appendChild (TextNode msg) ;; mret []
  end.

(** The compilation and the layout, given the trio. *)
Definition render (trio : Trio.t) : Async View unit :=
  compiled ← settled (compile trio);
  match compiled with
  | Err error =>
      console_error (LogError error) ;; appendChild (TextNode (showError error))
  | Ok value =>
      match optimize value with
      | Err error =>
          console_error (LogError error) ;; appendChild (TextNode (showError error))
      | Ok value' =>
          rendered ← settled (toSVG value');
          appendChild (SVGNode rendered)
      end
  end.

(** The processor. [getTrio] is a function of the module and is called
    with the source and the reader only. *)
Definition processor (app : App) (source : jsstring) : Async View unit :=
  trio ← getTrio module_this source (onload_readFile app);
  render trio.

(** A text node with a message of the reader about [path]. *)
Definition read_error_node (path : jsstring) (n : Node) : Prop :=
  exists tail, n = TextNode (lit "Error reading file " ++ path ++ tail).

End Processor.

(** ** Settings

    [this.settings] and [DEFAULT_SETTINGS] are objects, and so are their
    [aliases]: [Object.assign] copies the reference, not the table. The
    state below has the two tables that exist, the one of
    [DEFAULT_SETTINGS] and the one of the data last loaded, and says
    which of them [this.settings.aliases] is. *)

(** The object [loadData] resolves to, with the properties it has; [None]
    for a property it has not. *)
Record StoredData := {
  stored_mySetting : option jsstring;
  stored_aliases : option AliasConfig
}.

Inductive AliasesObject :=
| OfDefaults   (* the object [DEFAULT_SETTINGS.aliases] *)
| OfData.      (* the [aliases] object of the data last loaded *)

Record SettingsObject := {
  settings_mySetting : jsstring;
  settings_aliases : AliasesObject
}.

Record PluginState := {
  default_aliases : AliasConfig;          (* the table of [OfDefaults] *)
  data_aliases : AliasConfig;             (* the table of [OfData] *)
  this_settings : option SettingsObject;  (* [None]: not assigned yet *)
  data_json : option StoredData           (* [None]: [loadData] gives [null] *)
}.

(** The plugin when the module has been evaluated and nothing loaded. *)
Definition fresh_plugin (data : option StoredData) : PluginState :=
  {| default_aliases := aliases DEFAULT_SETTINGS; data_aliases := ∅;
     this_settings := None; data_json := data |}.

Definition table_of (st : PluginState) (o : AliasesObject) : AliasConfig :=
  match o with
  | OfDefaults => default_aliases st
  | OfData => data_aliases st
  end.

(** The settings as values: what [JSON.stringify(this.settings)] shows. *)
Definition settings_of (st : PluginState) : option PenroseSettings :=
  match this_settings st with
  | Some so => Some {| mySetting := settings_mySetting so;
                       aliases := table_of st (settings_aliases so) |}
  | None => None
  end.

(** [Object.assign({}, DEFAULT_SETTINGS, await this.loadData())]: the
    properties of the defaults, then those the data has, over them. *)
Definition loadSettings (st : PluginState) : PluginState :=
  match data_json st with
  | None =>
      {| default_aliases := default_aliases st; data_aliases := data_aliases st;
         this_settings := Some {| settings_mySetting := mySetting DEFAULT_SETTINGS;
                                  settings_aliases := OfDefaults |};
         data_json := data_json st |}
  | Some data =>
      {| default_aliases := default_aliases st;
         data_aliases := match stored_aliases data with
                         | Some table => table
                         | None => data_aliases st
                         end;
         this_settings :=
           Some {| settings_mySetting :=
                     match stored_mySetting data with
                     | Some v => v
                     | None => mySetting DEFAULT_SETTINGS
                     end;
                   settings_aliases :=
                     match stored_aliases data with
                     | Some _ => OfData
                     | None => OfDefaults
                     end |};
         data_json := data_json st |}
  end.

(** [this.saveData(settings)]: the data of the host are the settings. The
    host is taken to store what it is given; the handlers do not wait for
    it. *)
Definition saveData (settings : PenroseSettings) (st : PluginState) : PluginState :=
  {| default_aliases := default_aliases st; data_aliases := data_aliases st;
     this_settings := this_settings st;
     data_json := Some {| stored_mySetting := Some (mySetting settings);
                          stored_aliases := Some (aliases settings) |} |}.

(** An assignment to the table [this.settings.aliases] is. *)
Definition write_table (o : AliasesObject) (table : AliasConfig)
    (st : PluginState) : PluginState :=
  match o with
  | OfDefaults =>
      {| default_aliases := table; data_aliases := data_aliases st;
         this_settings := this_settings st; data_json := data_json st |}
  | OfData =>
      {| default_aliases := default_aliases st; data_aliases := table;
         this_settings := this_settings st; data_json := data_json st |}
  end.

(** [this.plugin.saveData(this.plugin.settings)], when the settings are
    there. *)
Definition save_current (st : PluginState) : PluginState :=
  match settings_of st with
  | Some s => saveData s st
  | None => st
  end.

(** The handlers of the settings tab. Each reads
    [this.plugin.settings.aliases], which throws when the settings are not
    assigned. What they do to the elements of the tab (the row removed, the
    tab drawn again) is not part of the state. *)
Definition Handler : Type := PluginState -> Completion unit * PluginState.

(** The names every plain object inherits from [Object.prototype]. Read
    on a table that has no key of that name, [aliases[name]] is the
    function, or for [__proto__] the prototype, that is inherited. *)
Definition Object_prototype_names : list jsstring :=
  map lit ["constructor"; "__defineGetter__"; "__defineSetter__";
           "hasOwnProperty"; "__lookupGetter__"; "__lookupSetter__";
           "isPrototypeOf"; "propertyIsEnumerable"; "toString"; "valueOf";
           "__proto__"; "toLocaleString"]%string.

Fixpoint jsstring_eqb (a b : jsstring) : bool :=
  match a, b with
  | [], [] => true
  | x :: a', y :: b' => (x =? y) && jsstring_eqb a' b'
  | _, _ => false
  end.

Definition inherited (name : jsstring) : bool :=
  existsb (jsstring_eqb name) Object_prototype_names.

(** [onChange] of the domain of the row of [alias]. [aliases[alias]] is the
    entry of a key of the table. For a name that is no key it is what the
    table inherits: an object, on which the assignment sets a property
    without any change to the table, and the settings are saved as they
    are; or nothing, or a string an earlier such assignment has left on the
    prototype, and then the assignment throws, the body of a class being
    strict code. *)
Definition onChange_domain (alias value : jsstring) : Handler := fun st =>
  match this_settings st with
  | None => (Throw TypeError, st)
  | Some so =>
      let table := table_of st (settings_aliases so) in
      match table !! alias with
      | None =>
          if inherited alias then (Normal tt, save_current st)
          else (Throw TypeError, st)
      | Some entry =>
          (Normal tt,
           save_current
             (write_table (settings_aliases so)
                (<[alias := {| Alias.domain := value;
                               Alias.style := Alias.style entry |}]> table) st))
      end
  end.

(** [onChange] of the style of the row of [alias], in the same way. *)
Definition onChange_style (alias value : jsstring) : Handler := fun st =>
  match this_settings st with
  | None => (Throw TypeError, st)
  | Some so =>
      let table := table_of st (settings_aliases so) in
      match table !! alias with
      | None =>
          if inherited alias then (Normal tt, save_current st)
          else (Throw TypeError, st)
      | Some entry =>
          (Normal tt,
           save_current
             (write_table (settings_aliases so)
                (<[alias := {| Alias.domain := Alias.domain entry;
                               Alias.style := value |}]> table) st))
      end
  end.

(** [onclick] of the delete button of the row of [alias]. *)
Definition deleteButton_onclick (alias : jsstring) : Handler := fun st =>
  match this_settings st with
  | None => (Throw TypeError, st)
  | Some so =>
      let table := table_of st (settings_aliases so) in
      (Normal tt,
       save_current (write_table (settings_aliases so) (delete alias table) st))
  end.

(** The template literal of the add button, for a table of [n] keys: the
    word [alias] and [n + 1] in decimal. *)
Definition newAliasName (n : nat) : jsstring :=
  lit "alias" ++ lit (DecimalString.NilEmpty.string_of_uint (Nat.to_uint (n + 1))).

(** [onclick] of the add button. *)
Definition addButton_onclick : Handler := fun st =>
  match this_settings st with
  | None => (Throw TypeError, st)
  | Some so =>
      let table := table_of st (settings_aliases so) in
      let name := newAliasName (size table) in
      (Normal tt,
       save_current
         (write_table (settings_aliases so)
            (<[name := {| Alias.domain := []; Alias.style := [] |}]> table) st))
  end.

(** Handlers one after the other, as long as none throws. *)
Fixpoint run_handlers (hs : list Handler) (st : PluginState)
  : Completion unit * PluginState :=
  match hs with
  | [] => (Normal tt, st)
  | h :: hs' =>
      match h st with
      | (Normal _, st') => run_handlers hs' st'
      | (Throw e, st') => (Throw e, st')
      end
  end.

(** ** More notions for the properties *)

(** The text with a carriage return before each line feed. *)
Fixpoint crlf (s : jsstring) : jsstring :=
  match s with
  | [] => []
  | c :: s' => if c =? LF then CR :: LF :: crlf s' else c :: crlf s'
  end.

(** Lines with a carriage return at the end of each but the last. *)
Fixpoint add_CR_but_last (ls : list jsstring) : list jsstring :=
  match ls with
  | [] => []
  | [l] => [l]
  | l :: ls' => (l ++ [CR]) :: add_CR_but_last ls'
  end.

(** A value as the parser stores it: trimmed, and without a line
    terminator. *)
Definition stored_value (v : jsstring) : Prop :=
  trim v = v /\ forallb isDot v = true.

(** The capture of the last of [lines] that [re] matches. *)
Fixpoint last_capture (re : Pattern) (lines : list jsstring) : option jsstring :=
  match lines with
  | [] => None
  | l :: ls =>
      match last_capture re ls with
      | Some g => Some g
      | None => String_match l re
      end
  end.

Definition trimmed_or_empty (g : option jsstring) : jsstring :=
  match g with
  | Some g => trim g
  | None => []
  end.

(** A text none of whose lines a pattern matches. *)
Definition plain_text (s : jsstring) : Prop :=
  forall line, In line (split_LF s) -> matching_patterns line = [].

(** A reader whose every call rejects. *)
Definition rejecting_reader : jsstring -> Async (list jsstring) jsstring :=
  fun path w => (Rejected (HostError path), w ++ [path]).

(** The edits the settings tab offers. *)
Inductive Action :=
| ChangeDomain (alias value : jsstring)
| ChangeStyle (alias value : jsstring)
| Delete (alias : jsstring)
| Add.

Definition handler_of (a : Action) : Handler :=
  match a with
  | ChangeDomain alias value => onChange_domain alias value
  | ChangeStyle alias value => onChange_style alias value
  | Delete alias => deleteButton_onclick alias
  | Add => addButton_onclick
  end.

(** The entry the add button writes. *)
Definition empty_entry : Alias.t := {| Alias.domain := []; Alias.style := [] |}.

(** The table [this.settings.aliases] is, empty when there are no
    settings. *)
Definition current_table (st : PluginState) : AliasConfig :=
  match this_settings st with
  | Some so => table_of st (settings_aliases so)
  | None => ∅
  end.

(** The data [saveData] leaves for some settings. *)
Definition stored_of (s : PenroseSettings) : StoredData :=
  {| stored_mySetting := Some (mySetting s); stored_aliases := Some (aliases s) |}.

(** What an edit makes of the table, and [None] when it throws. *)
Definition apply_action (a : Action) (table : AliasConfig) : option AliasConfig :=
  match a with
  | ChangeDomain alias value =>
      match table !! alias with
      | Some entry =>
          Some (<[alias := {| Alias.domain := value;
                              Alias.style := Alias.style entry |}]> table)
      | None => if inherited alias then Some table else None
      end
  | ChangeStyle alias value =>
      match table !! alias with
      | Some entry =>
          Some (<[alias := {| Alias.domain := Alias.domain entry;
                              Alias.style := value |}]> table)
      | None => if inherited alias then Some table else None
      end
  | Delete alias => Some (delete alias table)
  | Add => Some (<[newAliasName (size table) := empty_entry]> table)
  end.

(** What a change of a field makes of an entry of the table. *)
Definition with_domain (value : jsstring) (entry : Alias.t) : Alias.t :=
  {| Alias.domain := value; Alias.style := Alias.style entry |}.
Definition with_style (value : jsstring) (entry : Alias.t) : Alias.t :=
  {| Alias.domain := Alias.domain entry; Alias.style := value |}.

(** The edits of the settings tab one after the other. *)
Definition run_actions (actions : list Action) : PluginState -> Completion unit * PluginState :=
  run_handlers (map handler_of actions).

(** The own properties of the object [extractMetadata] returns, the object
    literal with [style], [domain] and [variation]. *)
Definition Meta_properties (m : Meta.t) : list (string * jsstring) :=
  [("style", Meta.style m); ("domain", Meta.domain m);
   ("variation", Meta.variation m)]%string.

(** The value of the own property [name] of that object, and [None] when
    it has no such property. *)
Definition Meta_property (m : Meta.t) (name : string) : option jsstring :=
  match List.find (fun p => String.eqb (fst p) name) (Meta_properties m) with
  | Some p => Some (snd p)
  | None => None
  end.

(** The record has the four fields [domain], [style], [variation] and
    [aliasName], each the empty string. *)
Definition four_empty_fields (m : Meta.t) : Prop :=
  forall name, In name ["domain"; "style"; "variation"; "aliasName"]%string ->
               Meta_property m name = Some [].

(** The plugin after [onload] has loaded the settings. *)
Definition loaded_plugin (data : option StoredData) : PluginState :=
  loadSettings (fresh_plugin data).

(** Data without the property [aliases]. *)
Definition without_aliases (data : option StoredData) : Prop :=
  match data with
  | None => True
  | Some d => stored_aliases d = None
  end.

(** A table with the [n] names the add button gives from an empty
    table, each with the empty entry, and no other name. *)
Definition names_up_to (n : nat) (table : AliasConfig) : Prop :=
  size table = n /\
  (forall j, (j < n)%nat -> table !! newAliasName j = Some empty_entry) /\
  (forall name, is_Some (table !! name) ->
                exists j, (j < n)%nat /\ name = newAliasName j).

(** Two clicks on the add button, a domain for the second alias, and the
    first alias deleted. *)
Definition plugin_with_alias2 : PluginState :=
  snd (run_handlers
         (map handler_of [Add; Add; ChangeDomain (lit "alias2") (lit "D"); Delete (lit "alias1")])
         (loaded_plugin None)).

(** ** More examples *)

(** A vault with the documents of [files_D1_S1] and nothing else. *)
Definition vault_D1_S1 : Vault :=
  {| getAbstractFileByPath := fun path =>
       match files_D1_S1 !! path with
       | Some _ => Some (IsFile {| TFile_path := path |})
       | None => None
       end;
     read := fun file =>
       match files_D1_S1 !! TFile_path file with
       | Some body => Fulfilled body
       | None => Rejected (HostError (TFile_path file))
       end |}.

Definition app_D1_S1 : App := {| vault := vault_D1_S1 |}.

Definition compile_rejecting (trio : Trio.t) : Promise (Result Trio.t jsstring) :=
  Rejected TypeError.
Definition optimize_example (c : Trio.t) : Result Trio.t jsstring := Ok c.
Definition showError_example (e : jsstring) : jsstring := e.
Definition toSVG_example (o : Trio.t) : Promise jsstring := Fulfilled (Trio.substance o).
Definition ToString_example (e : Exn) : jsstring :=
  match e with
  | TypeError => lit "TypeError"
  | HostError reason => reason
  end.

Definition empty_view : @View jsstring jsstring := {| el := []; console := [] |}.

(** * Properties *)

(** ** Strings *)

Lemma stripPrefix_Some (pre s r : jsstring) :
  stripPrefix pre s = Some r -> s = pre ++ r.
Proof.
  revert s. induction pre as [|c pre IH]; intros s H; simpl in H.
  - now inversion H.
  - destruct s as [|c' s]; [discriminate|].
    destruct (N.eqb_spec c c') as [->|]; [|discriminate].
    simpl. f_equal. now apply IH.
Qed.


Lemma takeWhile_dropWhile (p : char16 -> bool) (s : jsstring) :
  s = takeWhile p s ++ dropWhile p s.
Proof.
  induction s as [|c s IH]; simpl; [reflexivity|].
  destruct (p c); simpl; [now f_equal | reflexivity].
Qed.

Lemma takeWhile_all (p : char16 -> bool) (s : jsstring) :
  forallb p (takeWhile p s) = true.
Proof.
  induction s as [|c s IH]; simpl; [reflexivity|].
  destruct (p c) eqn:E; simpl; [now rewrite E | reflexivity].
Qed.



(** ** The matcher *)

(** A star followed by a character outside its class ends where the class
    ends: giving characters back cannot help. *)
Lemma star_then_char (cls : char16 -> bool) (c : char16) (p : Pattern)
    (g taken s : jsstring) :
  cls c = false ->
  star cls (fun _ rest => matchAt (Char c :: p) rest g) taken s
  = matchAt (Char c :: p) (dropWhile cls s) g.
Proof.
  intros Hc. revert taken. induction s as [|c0 s IH]; intros taken.
  - reflexivity.
  - cbn [star dropWhile]. destruct (cls c0) eqn:E; [|reflexivity].
    rewrite IH.
    destruct (matchAt (Char c :: p) (dropWhile cls s) g); [reflexivity|].
    cbn [matchAt]. destruct (N.eqb_spec c c0) as [->|]; [congruence | reflexivity].
Qed.

(** A star that ends the pattern takes all it can. *)
Lemma star_at_end (cls : char16 -> bool) (taken s : jsstring) :
  star cls (fun t rest => matchAt [] rest t) taken s
  = Some (taken ++ takeWhile cls s).
Proof.
  revert taken. induction s as [|c s IH]; intros taken; cbn [star takeWhile].
  - cbn. now rewrite app_nil_r.
  - destruct (cls c).
    + rewrite IH. now rewrite <- app_assoc.
    + cbn. now rewrite app_nil_r.
Qed.

Lemma matchAt_chars (k : jsstring) (p : Pattern) (s g : jsstring) :
  matchAt (map Char k ++ p) s g
  = match stripPrefix k s with
    | Some r => matchAt p r g
    | None => None
    end.
Proof.
  revert s. induction k as [|c k IH]; intros s; [reflexivity|].
  cbn [map app matchAt stripPrefix].
  destruct s as [|c' s]; [reflexivity|].
  destruct (c =? c'); [apply IH | reflexivity].
Qed.

Lemma matchAt_tagged (tag : string) (s : jsstring) :
  starts_outside_space tag ->
  matchAt (tagged tag) s [] = tagAt (lit tag) s.
Proof.
  unfold starts_outside_space, tagged, tagAt, chars. intros Htag.
  rewrite matchAt_chars.
  destruct (stripPrefix (lit "--") s) as [r|]; [|reflexivity].
  cbn [app matchAt].
  destruct (lit tag) as [|c tag'] eqn:E; [contradiction|].
  cbn [map app]. rewrite star_then_char by assumption.
  change (Char c :: map Char tag' ++ [GroupStar isDot])
    with (map Char (c :: tag') ++ [GroupStar isDot]).
  rewrite matchAt_chars.
  destruct (stripPrefix (c :: tag') (dropWhile isSpace r)) as [v|]; [|reflexivity].
  cbn [matchAt]. now rewrite star_at_end.
Qed.

Lemma exec_Some (p : Pattern) (s g : jsstring) :
  exec p s = Some g ->
  exists before suf, s = before ++ suf /\ matchAt p suf [] = Some g.
Proof.
  induction s as [|c s IH]; cbn [exec]; intros H.
  - destruct (matchAt p [] []) eqn:E; [|discriminate].
    exists [], []. split; [reflexivity | congruence].
  - destruct (matchAt p (c :: s) []) eqn:E.
    + exists [], (c :: s). split; [reflexivity | congruence].
    + destruct (IH H) as (before & suf & -> & Hm).
      exists (c :: before), suf. split; [reflexivity | assumption].
Qed.


Lemma tagAt_Some (tag suf g : jsstring) :
  tagAt tag suf = Some g ->
  exists ws value,
    suf = lit "--" ++ ws ++ tag ++ value /\ forallb isSpace ws = true /\
    g = takeWhile isDot value.
Proof.
  unfold tagAt. intros H.
  destruct (stripPrefix (lit "--") suf) as [r|] eqn:E1; [|discriminate].
  destruct (stripPrefix tag (dropWhile isSpace r)) as [v|] eqn:E2; [|discriminate].
  apply stripPrefix_Some in E1, E2.
  exists (takeWhile isSpace r), v. repeat split.
  - rewrite E1. f_equal. rewrite <- E2. apply takeWhile_dropWhile.
  - apply takeWhile_all.
  - congruence.
Qed.


(** A line matches the pattern of a tag exactly when it has the form of
    the annotation; the capture is the value up to its first line
    terminator. *)
Lemma match_tagged_Some (tag : string) (line g : jsstring) :
  starts_outside_space tag ->
  String_match line (tagged tag) = Some g ->
  exists value, AnnotationLine tag line value /\ g = takeWhile isDot value.
Proof.
  intros Htag H. apply exec_Some in H as (before & suf & -> & Hm).
  rewrite matchAt_tagged in Hm by assumption.
  apply tagAt_Some in Hm as (ws & value & -> & Hws & ->).
  exists value. split; [|reflexivity]. now exists before, ws.
Qed.


(** ** The callback *)

Lemma alias_is_tagged : alias = tagged "alias:".
Proof. reflexivity. Qed.
Lemma domainRegex_is_tagged : domainRegex = tagged "domain:".
Proof. reflexivity. Qed.
Lemma styleRegex_is_tagged : styleRegex = tagged "style:".
Proof. reflexivity. Qed.
Lemma variationRegex_is_tagged : variationRegex = tagged "variation:".
Proof. reflexivity. Qed.

Lemma tags_start_outside_space (tag : string) :
  In tag tags -> starts_outside_space tag.
Proof.
  intros [<-|[<-|[<-|[<-|[]]]]]; reflexivity.
Qed.

#[local] Hint Resolve tags_start_outside_space : core.
#[local] Hint Extern 1 (In _ tags) => (cbn; tauto) : core.

(** On a line [alias] matches, with [this] undefined: the name is assigned,
    the lookup throws, and the promise of the call is rejected. *)
Lemma callback_alias_line (line g : jsstring) (st : Locals) :
  String_match line alias = Some g ->
  callback module_this line st
  = (Rejected TypeError,
     {| domain := domain st; style := style st; variation := variation st;
        aliasName := trim g |}).
Proof.
  intros H. unfold callback, async, aliasStep, mbind, Body_bind.
  now rewrite H.
Qed.

(** On any other line, whatever [this] is: the three other statements. *)
Lemma callback_other_line (this_ : This) (line : jsstring) (st : Locals) :
  String_match line alias = None ->
  callback this_ line st
  = (Fulfilled tt,
     {| domain := match String_match line domainRegex with
                  | Some m => trim m
                  | None => domain st
                  end;
        style := match String_match line styleRegex with
                 | Some m => trim m
                 | None => style st
                 end;
        variation := match String_match line variationRegex with
                     | Some m => trim m
                     | None => variation st
                     end;
        aliasName := aliasName st |}).
Proof.
  intros H.
  unfold callback, async, aliasStep, domainStep, styleStep, variationStep,
    mbind, Body_bind.
  rewrite H.
  destruct (String_match line domainRegex), (String_match line styleRegex),
    (String_match line variationRegex), st; reflexivity.
Qed.

Lemma callback_same_meta (line : jsstring) (a b : Locals) :
  same_meta a b ->
  same_meta (snd (callback module_this line a)) (snd (callback module_this line b)).
Proof.
  intros (Hd & Hs & Hv).
  destruct (String_match line alias) as [g|] eqn:E.
  - rewrite !(callback_alias_line _ g) by assumption. now repeat split.
  - rewrite !callback_other_line by assumption. unfold same_meta.
    cbn [snd domain style variation].
    destruct (String_match line domainRegex), (String_match line styleRegex),
      (String_match line variationRegex); repeat split; assumption || reflexivity.
Qed.

(** The lines [alias] matches leave no trace in what is returned. *)
Lemma forEach_without_alias (lines : list jsstring) (a b : Locals) :
  same_meta a b ->
  same_meta (forEach (callback module_this) lines a)
            (forEach (callback module_this)
               (List.filter (fun line => negb (matches line alias)) lines) b).
Proof.
  revert a b. induction lines as [|line lines IH]; intros a b Hab; [assumption|].
  cbn [forEach List.filter]. unfold matches at 1.
  destruct (String_match line alias) as [g|] eqn:E; cbn [negb].
  - apply IH. rewrite (callback_alias_line _ g) by assumption.
    destruct Hab as (Hd & Hs & Hv). now repeat split.
  - cbn [forEach]. apply IH. now apply callback_same_meta.
Qed.

(** A line no pattern matches leaves the variables alone. *)
Lemma callback_unmatched_line (this_ : This) (line : jsstring) (st : Locals) :
  String_match line alias = None ->
  String_match line domainRegex = None ->
  String_match line styleRegex = None ->
  String_match line variationRegex = None ->
  callback this_ line st = (Fulfilled tt, st).
Proof.
  intros Ha Hd Hs Hv. rewrite callback_other_line by assumption.
  rewrite Hd, Hs, Hv. now destruct st.
Qed.


(** ** C3 *)

(** C3. On every line of a document that [alias] matches, the lookup
    [this.plugin.settings.aliases[aliasName]] throws a TypeError, [this]
    being undefined at the top level of the module; the promise of the
    callback is rejected and dropped by [forEach]; the checks for domain,
    style and variation on that line are not reached, so these three
    variables are as before the line; and [extractMetadata] is fulfilled
    all the same, with what the lines without an alias assign. *)
Theorem C3_alias_line_throws_and_is_skipped (source line g : jsstring) :
  In line (split_LF source) ->
  String_match line alias = Some g ->
  (forall st, this_plugin_settings_aliases module_this (trim g) st
              = (Throw TypeError, st)) /\
  (forall st, callback module_this line st
              = (Rejected TypeError,
                 {| domain := domain st; style := style st;
                    variation := variation st; aliasName := trim g |})) /\
  (let others :=
     forEach (callback module_this) (lines_without_alias source) initial in
   extractMetadata module_this source
   = Fulfilled {| Meta.style := style others; Meta.domain := domain others;
                  Meta.variation := variation others |}).
Proof.
  intros _ Hm. split; [reflexivity|]. split.
  - intros st. now apply callback_alias_line.
  - cbv zeta. unfold extractMetadata, locals_at_return, lines_without_alias.
    destruct (forEach_without_alias (split_LF source) initial initial)
      as (Hd & Hs & Hv); [now repeat split|].
    cbv zeta. now rewrite Hd, Hs, Hv.
Qed.

Lemma C3_witness :
  callback module_this (lit "-- alias: a -- domain: b") initial
  = (Rejected TypeError,
     {| domain := []; style := []; variation := [];
        aliasName := lit "a -- domain: b" |}) /\
  extractMetadata module_this
    (lit "-- style: s" ++ [LF] ++ lit "-- alias: a -- domain: b")
  = Fulfilled {| Meta.style := lit "s"; Meta.domain := []; Meta.variation := [] |}.
Proof.
  pose proof (C3_alias_line_throws_and_is_skipped
                (lit "-- style: s" ++ [LF] ++ lit "-- alias: a -- domain: b")
                (lit "-- alias: a -- domain: b")
                (lit " a -- domain: b")) as H.
  destruct H as (_ & Hcb & Hmeta).
  - vm_compute. tauto.
  - vm_compute. reflexivity.
  - split; [exact (Hcb initial) | exact Hmeta].
Defined.

(** ** C4 *)

(** C4. Whatever the alias table holds, and so when it has no entry for the
    name, a line [alias] matches leaves the variables [domain] and [style]
    as they were before the line, empty when nothing had assigned them; and
    no error leaves the parser: [extractMetadata] is fulfilled. *)
Theorem C4_unknown_alias_keeps_domain_and_style
    (table : AliasConfig) (source line g : jsstring) (st : Locals) :
  table !! trim g = None ->
  In line (split_LF source) ->
  String_match line alias = Some g ->
  domain (snd (callback module_this line st)) = domain st /\
  style (snd (callback module_this line st)) = style st /\
  (st = initial ->
   domain (snd (callback module_this line st)) = [] /\
   style (snd (callback module_this line st)) = []) /\
  exists meta, extractMetadata module_this source = Fulfilled meta.
Proof.
  intros _ _ Hm. rewrite (callback_alias_line _ g) by assumption.
  cbn [snd domain style].
  split; [reflexivity|]. split; [reflexivity|]. split.
  - intros ->. split; reflexivity.
  - eexists. reflexivity.
Qed.

Lemma C4_witness :
  domain (snd (callback module_this (lit "-- alias: bar")
                 (snd (callback module_this (lit "-- domain: D0") initial))))
  = lit "D0" /\
  style (snd (callback module_this (lit "-- alias: bar")
                (snd (callback module_this (lit "-- domain: D0") initial))))
  = [].
Proof.
  pose proof (C4_unknown_alias_keeps_domain_and_style aliases_foo
                (lit "-- domain: D0" ++ [LF] ++ lit "-- alias: bar")
                (lit "-- alias: bar") (lit " bar")
                (snd (callback module_this (lit "-- domain: D0") initial))) as H.
  destruct H as (Hd & Hs & _).
  - vm_compute. reflexivity.
  - vm_compute. tauto.
  - vm_compute. reflexivity.
  - split; [exact Hd | exact Hs].
Defined.

(** ** C5 *)




(** ** C10 *)

Lemma hyphen_pairs_app (a s : jsstring) :
  (hyphen_pairs s <= hyphen_pairs (a ++ s))%nat.
Proof.
  induction a as [|c a IH]; [reflexivity|].
  change ((c :: a) ++ s) with (c :: (a ++ s)). cbn [hyphen_pairs]. lia.
Qed.

Lemma hyphen_pairs_start (c : char16) (s r : jsstring) :
  stripPrefix (lit "--") (c :: s) = Some r ->
  hyphen_pairs (c :: s) = S (hyphen_pairs s).
Proof.
  intros H. cbn [hyphen_pairs]. now rewrite H.
Qed.

Lemma tagAt_starts_with_hyphens (tag s g : jsstring) :
  tagAt tag s = Some g -> exists r, stripPrefix (lit "--") s = Some r.
Proof.
  unfold tagAt. destruct (stripPrefix (lit "--") s) as [r|]; [|discriminate].
  intros _. now exists r.
Qed.

Lemma hyphen_pairs_of_match (tag s g : jsstring) :
  tagAt tag s = Some g -> (1 <= hyphen_pairs s)%nat.
Proof.
  intros H. apply tagAt_starts_with_hyphens in H as (r & Hr).
  destruct s as [|c s]; [discriminate|].
  rewrite (hyphen_pairs_start _ _ _ Hr). lia.
Qed.

(** Two tags that start with different characters are not both read at one
    place. *)
Lemma tagAt_exclusive (t1 t2 : string) (c1 c2 : char16) (s g1 g2 : jsstring) :
  head (lit t1) = Some c1 -> head (lit t2) = Some c2 -> c1 <> c2 ->
  tagAt (lit t1) s = Some g1 -> tagAt (lit t2) s = Some g2 -> False.
Proof.
  unfold tagAt. intros H1 H2 Hne.
  destruct (stripPrefix (lit "--") s) as [r|]; [|discriminate].
  destruct (lit t1) as [|a1 k1]; [discriminate|].
  destruct (lit t2) as [|a2 k2]; [discriminate|].
  cbn in H1, H2. inversion H1; inversion H2; subst a1 a2.
  cbn [stripPrefix]. destruct (dropWhile isSpace r) as [|x xs]; [discriminate|].
  destruct (N.eqb_spec c1 x) as [->|]; [|discriminate].
  destruct (N.eqb_spec c2 x) as [->|]; [|discriminate].
  congruence.
Qed.

(** Two matches at different places are two comment prefixes. *)
Lemma two_places_two_prefixes (t1 t2 l s g1 g2 : jsstring) :
  l <> [] -> tagAt t1 (l ++ s) = Some g1 -> tagAt t2 s = Some g2 ->
  (2 <= hyphen_pairs (l ++ s))%nat.
Proof.
  intros Hl H1 H2. destruct l as [|c l]; [congruence|].
  apply tagAt_starts_with_hyphens in H1 as (r & Hr).
  change ((c :: l) ++ s) with (c :: (l ++ s)) in *.
  rewrite (hyphen_pairs_start _ _ _ Hr).
  apply hyphen_pairs_of_match in H2.
  pose proof (hyphen_pairs_app l s). lia.
Qed.

Lemma two_tags_two_prefixes (t1 t2 : string) (c1 c2 : char16) (line g1 g2 : jsstring) :
  In t1 tags -> In t2 tags ->
  head (lit t1) = Some c1 -> head (lit t2) = Some c2 -> c1 <> c2 ->
  String_match line (tagged t1) = Some g1 ->
  String_match line (tagged t2) = Some g2 ->
  (2 <= hyphen_pairs line)%nat.
Proof.
  intros Ht1 Ht2 Hc1 Hc2 Hne H1 H2.
  apply exec_Some in H1 as (b1 & s1 & Hl1 & Hm1).
  apply exec_Some in H2 as (b2 & s2 & Hl2 & Hm2).
  rewrite matchAt_tagged in Hm1, Hm2 by auto.
  rewrite Hl1 in Hl2. apply app_eq_app in Hl2 as (l & [(-> & ->)|(-> & ->)]).
  - destruct l as [|c l].
    + exfalso. cbn [app] in Hm2.
      exact (tagAt_exclusive t1 t2 c1 c2 s1 g1 g2 Hc1 Hc2 Hne Hm1 Hm2).
    + subst line. rewrite <- app_assoc.
      etransitivity; [|apply hyphen_pairs_app].
      apply (two_places_two_prefixes (lit t2) (lit t1) _ _ g2 g1);
        [discriminate | assumption | assumption].
  - destruct l as [|c l].
    + exfalso. cbn [app] in Hm1.
      exact (tagAt_exclusive t1 t2 c1 c2 s2 g1 g2 Hc1 Hc2 Hne Hm1 Hm2).
    + subst line. etransitivity; [|apply hyphen_pairs_app].
      apply (two_places_two_prefixes (lit t1) (lit t2) _ _ g1 g2);
        [discriminate | assumption | assumption].
Qed.

Ltac two_tags t1 t2 H1 H2 :=
  let c1 := eval vm_compute in (head (lit t1)) in
  let c2 := eval vm_compute in (head (lit t2)) in
  match c1 with
  | Some ?a =>
      match c2 with
      | Some ?b =>
          eapply (two_tags_two_prefixes t1 t2 a b);
          [ cbn; tauto | cbn; tauto | reflexivity | reflexivity
          | discriminate | exact H1 | exact H2 ]
      end
  end.

Lemma matching_at_start_le_1 (s : jsstring) :
  (length (matching_at_start s) <= 1)%nat.
Proof.
  unfold matching_at_start.
  rewrite alias_is_tagged, domainRegex_is_tagged, styleRegex_is_tagged,
    variationRegex_is_tagged.
  cbn [List.filter]. rewrite !matchAt_tagged by auto.
  destruct (tagAt (lit "alias:") s) as [ga|] eqn:Ea;
  destruct (tagAt (lit "domain:") s) as [gd|] eqn:Ed;
  destruct (tagAt (lit "style:") s) as [gs|] eqn:Es;
  destruct (tagAt (lit "variation:") s) as [gv|] eqn:Ev;
  cbn [length]; try lia; exfalso;
  first
    [ apply (tagAt_exclusive "alias:" "domain:" 97 100 s ga gd); solve [reflexivity | discriminate | assumption]
    | apply (tagAt_exclusive "alias:" "style:" 97 115 s ga gs); solve [reflexivity | discriminate | assumption]
    | apply (tagAt_exclusive "alias:" "variation:" 97 118 s ga gv); solve [reflexivity | discriminate | assumption]
    | apply (tagAt_exclusive "domain:" "style:" 100 115 s gd gs); solve [reflexivity | discriminate | assumption]
    | apply (tagAt_exclusive "domain:" "variation:" 100 118 s gd gv); solve [reflexivity | discriminate | assumption]
    | apply (tagAt_exclusive "style:" "variation:" 115 118 s gs gv); solve [reflexivity | discriminate | assumption] ].
Qed.

(** C10, as the code has it. The four patterns are tested one by one and
    are not anchored: at one place of a line at most one of them matches,
    and so at most one matches a line in which the comment prefix [--]
    starts at one place at most; a line with more prefixes can match more
    than one. *)
Theorem C10_one_pattern_per_comment_prefix (line : jsstring) :
  (forall before rest, line = before ++ rest ->
     (length (matching_at_start rest) <= 1)%nat) /\
  ((hyphen_pairs line <= 1)%nat -> at_most_one_pattern line).
Proof.
  split; [intros before rest _; apply matching_at_start_le_1|].
  intros Hp. unfold at_most_one_pattern, matching_patterns, matches.
  rewrite alias_is_tagged, domainRegex_is_tagged, styleRegex_is_tagged,
    variationRegex_is_tagged.
  cbn [List.filter].
  destruct (String_match line (tagged "alias:")) as [ga|] eqn:Ea;
  destruct (String_match line (tagged "domain:")) as [gd|] eqn:Ed;
  destruct (String_match line (tagged "style:")) as [gs|] eqn:Es;
  destruct (String_match line (tagged "variation:")) as [gv|] eqn:Ev;
  cbn [length]; try lia; exfalso;
  assert (2 <= hyphen_pairs line)%nat as H2 by
    first [ two_tags "alias:"%string "domain:"%string Ea Ed
          | two_tags "alias:"%string "style:"%string Ea Es
          | two_tags "alias:"%string "variation:"%string Ea Ev
          | two_tags "domain:"%string "style:"%string Ed Es
          | two_tags "domain:"%string "variation:"%string Ed Ev
          | two_tags "style:"%string "variation:"%string Es Ev ];
  lia.
Qed.

Lemma C10_witness :
  at_most_one_pattern (lit "-- style: s.sty") /\
  at_most_one_pattern (lit "circle -- a circle").
Proof.
  split.
  - apply (C10_one_pattern_per_comment_prefix (lit "-- style: s.sty")).
    vm_compute. lia.
  - apply (C10_one_pattern_per_comment_prefix (lit "circle -- a circle")).
    vm_compute. lia.
Defined.

(** The claim as stated fails on a line with two annotations: both
    [domainRegex] and [styleRegex] match it, and both variables are
    assigned. *)
Lemma C10_counterexample_two_tags :
  matching_patterns line_with_two_tags = [domainRegex; styleRegex] /\
  snd (callback module_this line_with_two_tags initial)
  = {| domain := lit "a -- style: b"; style := lit "b";
       variation := []; aliasName := [] |} /\
  ~ at_most_one_pattern line_with_two_tags.
Proof.
  split; [vm_compute; reflexivity|]. split; [vm_compute; reflexivity|].
  unfold at_most_one_pattern. vm_compute. lia.
Qed.

(** ** [getTrio] *)

Lemma getTrio_unfold {W : Type} (this_ : This) (source : jsstring)
    (readFile : jsstring -> Async W jsstring) (w : W) :
  getTrio this_ source readFile w
  = match readFile (style (locals_at_return this_ source)) w with
    | (Fulfilled s, w1) =>
        match readFile (domain (locals_at_return this_ source)) w1 with
        | (Fulfilled d, w2) => (Fulfilled (trio_of this_ source s d), w2)
        | (Rejected e, w2) => (Rejected e, w2)
        end
    | (Rejected e, w1) => (Rejected e, w1)
    end.
Proof.
  unfold getTrio, mbind, Async_bind, settled, extractMetadata. cbn [Meta.style Meta.domain].
  destruct (readFile (style (locals_at_return this_ source)) w) as [[s|e] w1];
    [|reflexivity].
  destruct (readFile (domain (locals_at_return this_ source)) w1) as [[d|e] w2];
    reflexivity.
Qed.

(** Two calls that resolve: the trio has their bodies. *)
Lemma getTrio_resolved {W : Type} (this_ : This) (source : jsstring)
    (readFile : jsstring -> Async W jsstring) (w w1 w2 : W) (s d : jsstring) :
  readFile (style (locals_at_return this_ source)) w = (Fulfilled s, w1) ->
  readFile (domain (locals_at_return this_ source)) w1 = (Fulfilled d, w2) ->
  getTrio this_ source readFile w = (Fulfilled (trio_of this_ source s d), w2).
Proof.
  intros H1 H2. now rewrite getTrio_unfold, H1, H2.
Qed.

Lemma never_rejects_call {W : Type} (readFile : jsstring -> Async W jsstring)
    (path : jsstring) (w : W) :
  never_rejects readFile ->
  exists body w', readFile path w = (Fulfilled body, w').
Proof.
  intros H. destruct (H path w) as (body & Hb).
  destruct (readFile path w) as [p w']. cbn in Hb. subst p. now exists body, w'.
Qed.

(** The recording reader is the reader: same promises, same host. *)
Lemma spy_call {W : Type} (readFile : jsstring -> Async W jsstring)
    (path : jsstring) (w : W) (log : list jsstring) :
  spy readFile path (w, log)
  = (fst (readFile path w), (snd (readFile path w), log ++ [path])).
Proof.
  unfold spy. now destruct (readFile path w).
Qed.

Lemma reader_of_never_rejects (files : gmap jsstring jsstring) :
  never_rejects (reader_of files).
Proof.
  intros path el. unfold reader_of. destruct (files !! path); eexists; reflexivity.
Qed.

Lemma forEach_unmatched (this_ : This) (lines : list jsstring) (st : Locals) :
  (forall line, In line lines -> matching_patterns line = []) ->
  forEach (callback this_) lines st = st.
Proof.
  induction lines as [|line lines IH]; intros H; [reflexivity|].
  cbn [forEach].
  assert (Hl : matching_patterns line = []) by (apply H; now left).
  unfold matching_patterns, matches in Hl. cbn [List.filter] in Hl.
  destruct (String_match line alias) eqn:Ea; [discriminate|].
  destruct (String_match line domainRegex) eqn:Ed; [discriminate|].
  destruct (String_match line styleRegex) eqn:Es; [discriminate|].
  destruct (String_match line variationRegex) eqn:Ev; [discriminate|].
  rewrite callback_unmatched_line by assumption. cbn [snd].
  apply IH. intros l Hin. apply H. now right.
Qed.

(** A call that rejects ends [getTrio] there: when the read of the style
    rejects, [getTrio] rejects with the same error and the domain is not
    read. *)
Lemma getTrio_rejected {W : Type} (this_ : This) (source : jsstring)
    (readFile : jsstring -> Async W jsstring) (w w1 : W) (e : Exn) :
  readFile (style (locals_at_return this_ source)) w = (Rejected e, w1) ->
  getTrio this_ source readFile w = (Rejected e, w1) /\
  snd (snd (getTrio this_ source (spy readFile) (w, [])))
  = [style (locals_at_return this_ source)].
Proof.
  intros H. rewrite !getTrio_unfold, spy_call, H. split; reflexivity.
Qed.

(** ** C6 *)

(** C6, as the code has it. For a document none of whose lines matches a
    pattern: the object [extractMetadata] returns has the three properties
    [style], [domain] and [variation], each the empty string, and has no
    [aliasName], which is a variable of the parser, empty as the three
    others when it returns; [getTrio] calls the reader with the empty path
    twice, and its trio has the two bodies these calls resolve to, the
    document itself as substance and an empty variation. *)
Theorem C6_no_annotation_three_empty_fields {W : Type} (this_ : This)
    (source : jsstring) (readFile : jsstring -> Async W jsstring)
    (w w1 w2 : W) (s d : jsstring) :
  (forall line, In line (split_LF source) -> matching_patterns line = []) ->
  readFile [] w = (Fulfilled s, w1) ->
  readFile [] w1 = (Fulfilled d, w2) ->
  locals_at_return this_ source
  = {| domain := []; style := []; variation := []; aliasName := [] |} /\
  (exists meta,
     extractMetadata this_ source = Fulfilled meta /\
     meta = {| Meta.style := []; Meta.domain := []; Meta.variation := [] |} /\
     Meta_properties meta
     = [("style", []); ("domain", []); ("variation", [])]%string /\
     Meta_property meta "aliasName" = None) /\
  getTrio this_ source readFile w
  = (Fulfilled {| Trio.substance := source; Trio.style := s;
                  Trio.domain := d; Trio.variation := [] |}, w2).
Proof.
  intros Hplain H1 H2.
  assert (Hl : locals_at_return this_ source = initial)
    by (unfold locals_at_return; cbv zeta; now apply forEach_unmatched).
  split; [exact Hl|]. split.
  - eexists. unfold extractMetadata. cbv zeta. rewrite Hl.
    split; [reflexivity|]. repeat split.
  - rewrite (getTrio_resolved this_ source readFile w w1 w2 s d);
      rewrite ?Hl; try assumption.
    unfold trio_of. now rewrite Hl.
Qed.

Lemma C6_witness :
  getTrio module_this (lit "Set A" ++ [LF] ++ lit "-- a comment")
    (reader_of files_D1_S1) []
  = (Fulfilled {| Trio.substance := lit "Set A" ++ [LF] ++ lit "-- a comment";
                  Trio.style := []; Trio.domain := []; Trio.variation := [] |},
     [lit "Error reading file "; lit "Error reading file "]).
Proof.
  refine (proj2 (proj2 (C6_no_annotation_three_empty_fields module_this
            (lit "Set A" ++ [LF] ++ lit "-- a comment")
            (reader_of files_D1_S1) [] [lit "Error reading file "]
            [lit "Error reading file "; lit "Error reading file "] [] [] _ _ _))).
  - intros line Hin. vm_compute in Hin.
    destruct Hin as [<-|[<-|[]]]; vm_compute; reflexivity.
  - vm_compute. reflexivity.
  - vm_compute. reflexivity.
Defined.

(** The claim as stated fails on the empty document, which has no
    annotation: the object returned has no property [aliasName], so that
    reading it gives [undefined] and not the empty string. *)
Lemma C6_counterexample_no_aliasName_field :
  (forall line, In line (split_LF []) -> matching_patterns line = []) /\
  exists meta,
    extractMetadata module_this [] = Fulfilled meta /\
    Meta_property meta "aliasName" = None /\
    ~ four_empty_fields meta.
Proof.
  split.
  - intros line [<-|[]]. reflexivity.
  - eexists. split; [reflexivity|]. split; [reflexivity|].
    intros H. specialize (H "aliasName"%string). cbn in H.
    assert (Hn : @None jsstring = Some []) by (apply H; tauto).
    discriminate.
Qed.

(** ** C7 *)

(** C7. With a reader that resolves every call, to the empty string when it
    fails: [getTrio] is fulfilled with a trio of four strings, whose style is
    what the call for the style resolved to and whose domain is what the call
    for the domain resolved to, each whatever the other is, the empty string
    included; and the reader has been called twice, no more. *)
Theorem C7_failed_read_keeps_the_other {W : Type} (this_ : This) (source : jsstring)
    (readFile : jsstring -> Async W jsstring) (w : W) :
  never_rejects readFile ->
  exists (s d : jsstring) (w1 w2 : W),
    readFile (style (locals_at_return this_ source)) w = (Fulfilled s, w1) /\
    readFile (domain (locals_at_return this_ source)) w1 = (Fulfilled d, w2) /\
    getTrio this_ source readFile w
    = (Fulfilled {| Trio.substance := source; Trio.style := s; Trio.domain := d;
                    Trio.variation := variation (locals_at_return this_ source) |},
       w2) /\
    length (snd (snd (getTrio this_ source (spy readFile) (w, [])))) = 2%nat.
Proof.
  intros Hnr.
  destruct (never_rejects_call readFile (style (locals_at_return this_ source)) w Hnr)
    as (s & w1 & H1).
  destruct (never_rejects_call readFile (domain (locals_at_return this_ source)) w1 Hnr)
    as (d & w2 & H2).
  exists s, d, w1, w2. repeat split; try assumption.
  - exact (getTrio_resolved this_ source readFile w w1 w2 s d H1 H2).
  - rewrite getTrio_unfold, spy_call, H1. cbn [fst snd]. rewrite spy_call, H2.
    reflexivity.
Qed.

Lemma C7_witness :
  exists (s d : jsstring) (w1 w2 : list jsstring),
    reader_of (<[lit "S1" := lit "canvas { width = 800 }"]> ∅)
      (style (locals_at_return module_this
                (lit "-- style: S1" ++ [LF] ++ lit "-- domain: D1"))) []
    = (Fulfilled s, w1) /\
    reader_of (<[lit "S1" := lit "canvas { width = 800 }"]> ∅)
      (domain (locals_at_return module_this
                 (lit "-- style: S1" ++ [LF] ++ lit "-- domain: D1"))) w1
    = (Fulfilled d, w2) /\
    getTrio module_this (lit "-- style: S1" ++ [LF] ++ lit "-- domain: D1")
      (reader_of (<[lit "S1" := lit "canvas { width = 800 }"]> ∅)) []
    = (Fulfilled {| Trio.substance := lit "-- style: S1" ++ [LF] ++ lit "-- domain: D1";
                    Trio.style := s; Trio.domain := d;
                    Trio.variation :=
                      variation (locals_at_return module_this
                        (lit "-- style: S1" ++ [LF] ++ lit "-- domain: D1")) |},
       w2) /\
    length (snd (snd (getTrio module_this
                        (lit "-- style: S1" ++ [LF] ++ lit "-- domain: D1")
                        (spy (reader_of (<[lit "S1" := lit "canvas { width = 800 }"]> ∅)))
                        ([], [])))) = 2%nat.
Proof.
  apply (C7_failed_read_keeps_the_other module_this
           (lit "-- style: S1" ++ [LF] ++ lit "-- domain: D1")
           (reader_of (<[lit "S1" := lit "canvas { width = 800 }"]> ∅)) []).
  intros path el. unfold reader_of.
  destruct (_ !! path); eexists; reflexivity.
Defined.

(** A failed read of the domain next to a read of the style that
    succeeds. *)
Lemma failed_domain_keeps_style :
  getTrio module_this (lit "-- style: S1" ++ [LF] ++ lit "-- domain: D1")
    (reader_of (<[lit "S1" := lit "canvas { width = 800 }"]> ∅)) []
  = (Fulfilled {| Trio.substance := lit "-- style: S1" ++ [LF] ++ lit "-- domain: D1";
                  Trio.style := lit "canvas { width = 800 }";
                  Trio.domain := []; Trio.variation := [] |},
     [lit "Error reading file D1"]).
Proof. vm_compute. reflexivity. Qed.

(** ** C8 *)

(** C8. With a reader that resolves every call, [getTrio] calls it twice:
    first with the style the parser found, then with the domain it found,
    whatever these are; when the parser found none, the path of the call is
    the empty string. *)
Theorem C8_reader_called_with_style_then_domain {W : Type} (this_ : This)
    (source : jsstring) (readFile : jsstring -> Async W jsstring) (w : W) :
  never_rejects readFile ->
  snd (snd (getTrio this_ source (spy readFile) (w, [])))
  = [style (locals_at_return this_ source); domain (locals_at_return this_ source)] /\
  ((forall line, In line (split_LF source) -> matching_patterns line = []) ->
   snd (snd (getTrio this_ source (spy readFile) (w, []))) = [[]; []]).
Proof.
  intros Hnr.
  assert (Hlog : snd (snd (getTrio this_ source (spy readFile) (w, [])))
                 = [style (locals_at_return this_ source);
                    domain (locals_at_return this_ source)]).
  { destruct (never_rejects_call readFile (style (locals_at_return this_ source)) w Hnr)
      as (s & w1 & H1).
    destruct (never_rejects_call readFile (domain (locals_at_return this_ source)) w1 Hnr)
      as (d & w2 & H2).
    rewrite getTrio_unfold, spy_call, H1. cbn [fst snd]. rewrite spy_call, H2.
    reflexivity. }
  split; [exact Hlog|].
  intros Hplain. rewrite Hlog.
  unfold locals_at_return. cbv zeta. now rewrite forEach_unmatched.
Qed.

Lemma C8_witness :
  snd (snd (getTrio module_this (lit "-- domain: D1" ++ [LF] ++ lit "-- style: S1")
              (spy (reader_of files_D1_S1)) ([], [])))
  = [lit "S1"; lit "D1"] /\
  snd (snd (getTrio module_this (lit "Set A") (spy (reader_of files_D1_S1)) ([], [])))
  = [[]; []].
Proof.
  split.
  - refine (proj1 (C8_reader_called_with_style_then_domain module_this
              (lit "-- domain: D1" ++ [LF] ++ lit "-- style: S1")
              (reader_of files_D1_S1) [] _)).
    intros path el. unfold reader_of. destruct (_ !! path); eexists; reflexivity.
  - refine (proj2 (C8_reader_called_with_style_then_domain module_this
              (lit "Set A") (reader_of files_D1_S1) [] _) _).
    + intros path el. unfold reader_of. destruct (_ !! path); eexists; reflexivity.
    + intros line Hin. vm_compute in Hin.
      destruct Hin as [<-|[]]; vm_compute; reflexivity.
Defined.

(** ** C9 *)

(** C9. With a reader that resolves every call, [getTrio] is fulfilled, and
    the substance of a trio it is fulfilled with, under any reader, is the
    text it was given, code unit for code unit. *)
Theorem C9_substance_is_the_source {W : Type} (this_ : This) (source : jsstring)
    (readFile : jsstring -> Async W jsstring) (w : W) :
  (never_rejects readFile ->
   exists trio w', getTrio this_ source readFile w = (Fulfilled trio, w')) /\
  (forall trio w', getTrio this_ source readFile w = (Fulfilled trio, w') ->
                   Trio.substance trio = source).
Proof.
  split.
  - intros Hnr.
    destruct (never_rejects_call readFile (style (locals_at_return this_ source)) w Hnr)
      as (s & w1 & H1).
    destruct (never_rejects_call readFile (domain (locals_at_return this_ source)) w1 Hnr)
      as (d & w2 & H2).
    exists (trio_of this_ source s d), w2.
    exact (getTrio_resolved this_ source readFile w w1 w2 s d H1 H2).
  - intros trio w'. rewrite getTrio_unfold.
    destruct (readFile (style (locals_at_return this_ source)) w) as [[s|e] w1];
      [|discriminate].
    destruct (readFile (domain (locals_at_return this_ source)) w1) as [[d|e] w2];
      [|discriminate].
    intros H. inversion H. reflexivity.
Qed.

Lemma C9_witness :
  (exists trio w', getTrio module_this alias_then_domain (reader_of files_D1_S1) []
                   = (Fulfilled trio, w')) /\
  Trio.substance
    (trio_of module_this alias_then_domain [] []) = alias_then_domain.
Proof.
  split.
  - apply (C9_substance_is_the_source module_this alias_then_domain
             (reader_of files_D1_S1) []).
    intros path el. unfold reader_of. destruct (_ !! path); eexists; reflexivity.
  - apply (proj2 (C9_substance_is_the_source module_this alias_then_domain
                    (reader_of files_D1_S1) [])
             _ [lit "Error reading file "; lit "Error reading file D2"]).
    vm_compute. reflexivity.
Defined.

(** ** C1 and C2: the alias table is out of reach *)

(** What the lookup is written for. With a settings tab as [this], the
    statement for [alias] assigns the two fields of the entry of the name,
    and assigns nothing when the table has no such entry. *)
Lemma aliasStep_with_tab (tab : PenroseSettingTab) (line g : jsstring) (st : Locals) :
  String_match line alias = Some g ->
  aliasStep (ThisSettingTab tab) line st
  = (Normal tt,
     match aliases (settings (plugin tab)) !! trim g with
     | Some cfg =>
         {| domain := Alias.domain cfg; style := Alias.style cfg;
            variation := variation st; aliasName := trim g |}
     | None =>
         {| domain := domain st; style := style st;
            variation := variation st; aliasName := trim g |}
     end).
Proof.
  intros H. unfold aliasStep, mbind, Body_bind. rewrite H.
  cbn [set_aliasName get_aliasName aliasName this_plugin_settings_aliases mret Body_ret].
  now destruct (aliases (settings (plugin tab)) !! trim g).
Qed.

Lemma alias_resolved_with_tab :
  extractMetadata (ThisSettingTab tab_foo) alias_then_domain
  = Fulfilled {| Meta.style := lit "S1"; Meta.domain := lit "D2"; Meta.variation := [] |} /\
  extractMetadata (ThisSettingTab tab_foo) domain_then_alias
  = Fulfilled {| Meta.style := lit "S1"; Meta.domain := lit "D1"; Meta.variation := [] |}.
Proof. split; vm_compute; reflexivity. Qed.

(** C1, at the inputs of the claim. The table has [foo] with domain [D1] and
    style [S1]. For [-- alias: foo] followed by [-- domain: D2] the parser
    returns the domain [D2] and an empty style, not [S1]; for the two lines
    in the other order it returns the domain [D2], not [D1], and an empty
    style: the line of the alias contributes nothing. *)
Theorem C1_alias_line_contributes_nothing :
  aliases (settings (plugin tab_foo)) !! lit "foo"
  = Some {| Alias.domain := lit "D1"; Alias.style := lit "S1" |} /\
  extractMetadata module_this alias_then_domain
  = Fulfilled {| Meta.style := []; Meta.domain := lit "D2"; Meta.variation := [] |} /\
  extractMetadata module_this domain_then_alias
  = Fulfilled {| Meta.style := []; Meta.domain := lit "D2"; Meta.variation := [] |}.
Proof. repeat split; vm_compute; reflexivity. Qed.

(** C2, at the input of the claim. The table has [foo] with domain [D1] and
    style [S1], and the host has both documents. For [-- alias: foo] the
    variables [domain] and [style] stay empty, and [getTrio] calls the
    reader with the empty path twice, not with [S1] and [D1]; its trio has
    an empty style and an empty domain. *)
Theorem C2_alias_line_reads_empty_paths :
  aliases (settings (plugin tab_foo)) !! lit "foo"
  = Some {| Alias.domain := lit "D1"; Alias.style := lit "S1" |} /\
  locals_at_return module_this (lit "-- alias: foo")
  = {| domain := []; style := []; variation := []; aliasName := lit "foo" |} /\
  getTrio module_this (lit "-- alias: foo") (spy (reader_of files_D1_S1)) ([], [])
  = (Fulfilled {| Trio.substance := lit "-- alias: foo"; Trio.style := [];
                  Trio.domain := []; Trio.variation := [] |},
     ([lit "Error reading file "; lit "Error reading file "], [[]; []])).
Proof. repeat split; vm_compute; reflexivity. Qed.

Lemma alias_read_with_tab :
  getTrio (ThisSettingTab tab_foo) (lit "-- alias: foo")
    (spy (reader_of files_D1_S1)) ([], [])
  = (Fulfilled {| Trio.substance := lit "-- alias: foo";
                  Trio.style := lit "canvas { width = 800 }";
                  Trio.domain := lit "type Set"; Trio.variation := [] |},
     ([], [lit "S1"; lit "D1"])).
Proof. vm_compute. reflexivity. Qed.

(** * More of the parser *)

(** ** Line endings *)

Lemma split_LF_nonempty (s : jsstring) : split_LF s <> [].
Proof.
  destruct s as [|c s]; cbn [split_LF]; [discriminate|].
  destruct (c =? LF); [discriminate|]. destruct (split_LF s); discriminate.
Qed.

Lemma split_LF_crlf (s : jsstring) :
  split_LF (crlf s) = add_CR_but_last (split_LF s).
Proof.
  induction s as [|c s IH]; [reflexivity|].
  cbn [crlf split_LF]. destruct (N.eqb_spec c LF) as [->|Hc].
  - cbn [split_LF]. change (CR =? LF) with false. change (LF =? LF) with true.
    cbv iota. rewrite IH. pose proof (split_LF_nonempty s) as Hne.
    destruct (split_LF s) as [|l ls]; [congruence|]. reflexivity.
  - cbn [split_LF]. apply N.eqb_neq in Hc. rewrite Hc, IH.
    pose proof (split_LF_nonempty s) as Hne.
    destruct (split_LF s) as [|l [|l' ls]]; [congruence| reflexivity | reflexivity].
Qed.

Lemma stripPrefix_CR (k x : jsstring) :
  ~ In CR k ->
  stripPrefix k (x ++ [CR])
  = match stripPrefix k x with Some r => Some (r ++ [CR]) | None => None end.
Proof.
  revert x. induction k as [|c k IH]; intros x Hk; [reflexivity|].
  cbn [stripPrefix]. destruct x as [|c' x]; cbn [app].
  - destruct (N.eqb_spec c CR) as [->|]; [|reflexivity].
    destruct Hk. now left.
  - destruct (c =? c'); [|reflexivity]. apply IH. intros H. apply Hk. now right.
Qed.

Lemma dropWhile_CR (x : jsstring) :
  dropWhile isSpace (x ++ [CR])
  = match dropWhile isSpace x with
    | [] => []
    | c :: r => (c :: r) ++ [CR]
    end.
Proof.
  induction x as [|c x IH]; [reflexivity|].
  cbn [app dropWhile]. destruct (isSpace c); [exact IH | reflexivity].
Qed.

Lemma takeWhile_CR (v : jsstring) :
  takeWhile isDot (v ++ [CR]) = takeWhile isDot v.
Proof.
  induction v as [|c v IH]; [reflexivity|].
  cbn [app takeWhile]. destruct (isDot c); [now rewrite IH | reflexivity].
Qed.

Lemma tagAt_CR (tag : string) (x : jsstring) :
  In tag tags -> tagAt (lit tag) (x ++ [CR]) = tagAt (lit tag) x.
Proof.
  intros Htag. unfold tagAt.
  rewrite stripPrefix_CR by (vm_compute; intuition discriminate).
  destruct (stripPrefix (lit "--") x) as [r|]; [|reflexivity].
  rewrite dropWhile_CR. destruct (dropWhile isSpace r) as [|c r'].
  - destruct Htag as [<-|[<-|[<-|[<-|[]]]]]; reflexivity.
  - rewrite stripPrefix_CR
      by (destruct Htag as [<-|[<-|[<-|[<-|[]]]]]; vm_compute; intuition discriminate).
    destruct (stripPrefix (lit tag) (c :: r')) as [v|]; [|reflexivity].
    now rewrite takeWhile_CR.
Qed.

Lemma String_match_CR (tag : string) (line : jsstring) :
  In tag tags ->
  String_match (line ++ [CR]) (tagged tag) = String_match line (tagged tag).
Proof.
  intros Htag. unfold String_match.
  induction line as [|c line IH].
  - cbn [app exec]. rewrite !matchAt_tagged by auto.
    pose proof (tagAt_CR tag [] Htag) as H0. cbn [app] in H0. rewrite H0.
    destruct (tagAt (lit tag) []); reflexivity.
  - change ((c :: line) ++ [CR]) with (c :: (line ++ [CR])). cbn [exec].
    rewrite !matchAt_tagged by auto.
    change (c :: (line ++ [CR])) with ((c :: line) ++ [CR]).
    rewrite tagAt_CR by assumption. now rewrite IH.
Qed.

Lemma callback_CR (this_ : This) (line : jsstring) (st : Locals) :
  callback this_ (line ++ [CR]) st = callback this_ line st.
Proof.
  unfold callback, aliasStep, domainStep, styleStep, variationStep.
  rewrite alias_is_tagged, domainRegex_is_tagged, styleRegex_is_tagged,
    variationRegex_is_tagged.
  now rewrite !String_match_CR by auto.
Qed.

Lemma forEach_add_CR (this_ : This) (lines : list jsstring) (st : Locals) :
  forEach (callback this_) (add_CR_but_last lines) st
  = forEach (callback this_) lines st.
Proof.
  revert st. induction lines as [|l lines IH]; intros st; [reflexivity|].
  destruct lines as [|l' lines]; [reflexivity|].
  change (add_CR_but_last (l :: l' :: lines))
    with ((l ++ [CR]) :: add_CR_but_last (l' :: lines)).
  cbn [forEach]. now rewrite callback_CR, IH.
Qed.

(** X1. A document with CR LF line endings gives the metadata of the same
    document with LF line endings, whatever [this] is. *)
Theorem crlf_same_metadata (this_ : This) (source : jsstring) :
  extractMetadata this_ (crlf source) = extractMetadata this_ source.
Proof.
  unfold extractMetadata, locals_at_return. cbv zeta.
  now rewrite split_LF_crlf, forEach_add_CR.
Qed.

(** ** What the parser stores *)

Lemma dropWhile_length (p : char16 -> bool) (s : jsstring) :
  (length (dropWhile p s) <= length s)%nat.
Proof.
  induction s as [|c s IH]; cbn [dropWhile length]; [lia|].
  destruct (p c); cbn [length]; lia.
Qed.

Lemma dropWhile_fixed (p : char16 -> bool) (s : jsstring) :
  dropWhile p s = s ->
  s = [] \/ exists c s', s = c :: s' /\ p c = false.
Proof.
  destruct s as [|c s]; [now left|]. intros H. right. exists c, s.
  split; [reflexivity|]. cbn [dropWhile] in H.
  destruct (p c); [|reflexivity].
  pose proof (dropWhile_length p s) as Hl. rewrite H in Hl. cbn [length] in Hl. lia.
Qed.

Lemma dropWhile_idem (p : char16 -> bool) (s : jsstring) :
  dropWhile p (dropWhile p s) = dropWhile p s.
Proof.
  induction s as [|c s IH]; [reflexivity|].
  cbn [dropWhile]. destruct (p c) eqn:E; [exact IH|].
  cbn [dropWhile]. now rewrite E.
Qed.

Lemma dropWhile_keep (p : char16 -> bool) (l : jsstring) (c : char16) (t : jsstring) :
  p c = false -> dropWhile p (l ++ c :: t) = dropWhile p l ++ c :: t.
Proof.
  intros Hc. induction l as [|x l IH]; cbn [app dropWhile].
  - now rewrite Hc.
  - destruct (p x); [exact IH | reflexivity].
Qed.

Lemma trimStart_trimEnd (x : jsstring) :
  trimStart x = x -> trimStart (trimEnd x) = trimEnd x.
Proof.
  unfold trimStart, trimEnd. intros H.
  destruct (dropWhile_fixed _ _ H) as [->|(c & x' & -> & Hc)]; [reflexivity|].
  cbn [rev]. rewrite dropWhile_keep by assumption.
  rewrite rev_app_distr. cbn [rev app dropWhile]. now rewrite Hc.
Qed.

Lemma trimEnd_idem (x : jsstring) : trimEnd (trimEnd x) = trimEnd x.
Proof.
  unfold trimEnd. now rewrite rev_involutive, dropWhile_idem.
Qed.

(** [trim] leaves a trimmed string as it is. *)
Lemma trim_idem (s : jsstring) : trim (trim s) = trim s.
Proof.
  unfold trim.
  rewrite trimStart_trimEnd by apply dropWhile_idem.
  apply trimEnd_idem.
Qed.

Lemma forallb_dropWhile (p q : char16 -> bool) (s : jsstring) :
  forallb p s = true -> forallb p (dropWhile q s) = true.
Proof.
  induction s as [|c s IH]; [reflexivity|].
  cbn [forallb dropWhile]. intros H. apply andb_prop in H as [Hc Hs].
  destruct (q c); [now apply IH|]. cbn [forallb]. now rewrite Hc, Hs.
Qed.

Lemma forallb_rev_true (p : char16 -> bool) (s : jsstring) :
  forallb p s = true -> forallb p (rev s) = true.
Proof.
  rewrite !forallb_forall. intros H x Hx. apply H. now apply in_rev.
Qed.

Lemma forallb_trim (p : char16 -> bool) (s : jsstring) :
  forallb p s = true -> forallb p (trim s) = true.
Proof.
  intros H. unfold trim, trimEnd, trimStart.
  apply forallb_rev_true, forallb_dropWhile, forallb_rev_true, forallb_dropWhile, H.
Qed.

Lemma capture_stored (tag : string) (line g : jsstring) :
  In tag tags -> String_match line (tagged tag) = Some g -> stored_value (trim g).
Proof.
  intros Htag H. apply match_tagged_Some in H as (value & _ & ->); auto.
  split; [apply trim_idem | apply forallb_trim, takeWhile_all].
Qed.

Lemma callback_keeps_stored (line : jsstring) (st : Locals) :
  stored_value (domain st) /\ stored_value (style st) /\ stored_value (variation st) ->
  let st' := snd (callback module_this line st) in
  stored_value (domain st') /\ stored_value (style st') /\ stored_value (variation st').
Proof.
  intros (Hd & Hs & Hv). cbv zeta.
  destruct (String_match line alias) as [g|] eqn:Ea.
  - rewrite (callback_alias_line _ g) by assumption.
    cbn [snd domain style variation]. auto.
  - rewrite callback_other_line by assumption. cbn [snd domain style variation].
    rewrite domainRegex_is_tagged, styleRegex_is_tagged, variationRegex_is_tagged.
    split; [|split].
    + destruct (String_match line (tagged "domain:")) eqn:E; [|apply Hd].
      eapply capture_stored; [|exact E]; auto.
    + destruct (String_match line (tagged "style:")) eqn:E; [|apply Hs].
      eapply capture_stored; [|exact E]; auto.
    + destruct (String_match line (tagged "variation:")) eqn:E; [|apply Hv].
      eapply capture_stored; [|exact E]; auto.
Qed.

Lemma forEach_keeps_stored (lines : list jsstring) (st : Locals) :
  stored_value (domain st) /\ stored_value (style st) /\ stored_value (variation st) ->
  let st' := forEach (callback module_this) lines st in
  stored_value (domain st') /\ stored_value (style st') /\ stored_value (variation st').
Proof.
  revert st. induction lines as [|l lines IH]; intros st H; [exact H|].
  cbn [forEach]. apply IH. now apply callback_keeps_stored.
Qed.

(** X2. The three fields [extractMetadata] returns are trimmed, so that
    trimming them again changes nothing, and have no line terminator in
    them: no LF, CR, LS or PS. *)
Theorem metadata_fields_are_trimmed_single_lines (source : jsstring) :
  exists meta,
    extractMetadata module_this source = Fulfilled meta /\
    stored_value (Meta.domain meta) /\ stored_value (Meta.style meta) /\
    stored_value (Meta.variation meta).
Proof.
  eexists. split; [reflexivity|]. cbn [Meta.domain Meta.style Meta.variation].
  apply (forEach_keeps_stored (split_LF source) initial).
  split; [|split]; split; reflexivity.
Qed.

(** ** The last annotation wins *)

Lemma forEach_last_capture (this_ : This) (lines : list jsstring) (st : Locals) :
  (forall l, In l lines -> String_match l alias = None) ->
  let st' := forEach (callback this_) lines st in
  domain st' = match last_capture domainRegex lines with
               | Some g => trim g
               | None => domain st
               end /\
  style st' = match last_capture styleRegex lines with
              | Some g => trim g
              | None => style st
              end /\
  variation st' = match last_capture variationRegex lines with
                  | Some g => trim g
                  | None => variation st
                  end.
Proof.
  revert st. induction lines as [|l lines IH]; intros st H; [now repeat split|].
  cbn [forEach last_capture].
  destruct (IH (snd (callback this_ l st))) as (Hd & Hs & Hv).
  { intros l' Hl'. apply H. now right. }
  cbv zeta in Hd, Hs, Hv. cbv zeta. rewrite Hd, Hs, Hv.
  rewrite callback_other_line by (apply H; now left).
  cbn [snd domain style variation].
  destruct (last_capture domainRegex lines), (last_capture styleRegex lines),
    (last_capture variationRegex lines); repeat split; reflexivity.
Qed.

Lemma lines_without_alias_spec (source l : jsstring) :
  In l (lines_without_alias source) -> String_match l alias = None.
Proof.
  unfold lines_without_alias. rewrite filter_In. unfold matches.
  intros (_ & H). now destruct (String_match l alias).
Qed.

(** X3. Each field of the metadata is the trimmed value of the last line,
    among the lines [alias] does not match, that the pattern of the field
    matches, and is empty when there is no such line: a later [-- domain:]
    line overrides an earlier one, and a line that also carries an alias
    does not count. *)
Theorem last_direct_annotation_wins (source : jsstring) :
  extractMetadata module_this source
  = Fulfilled
      {| Meta.style :=
           trimmed_or_empty (last_capture styleRegex (lines_without_alias source));
         Meta.domain :=
           trimmed_or_empty (last_capture domainRegex (lines_without_alias source));
         Meta.variation :=
           trimmed_or_empty (last_capture variationRegex (lines_without_alias source)) |}.
Proof.
  unfold extractMetadata, locals_at_return. cbv zeta.
  destruct (forEach_without_alias (split_LF source) initial initial)
    as (Hd & Hs & Hv); [now repeat split|].
  change (List.filter (fun line => negb (matches line alias)) (split_LF source))
    with (lines_without_alias source) in Hd, Hs, Hv.
  destruct (forEach_last_capture module_this (lines_without_alias source) initial)
    as (Hd' & Hs' & Hv'); [apply lines_without_alias_spec|].
  cbv zeta in Hd', Hs', Hv'. rewrite Hd, Hs, Hv, Hd', Hs', Hv'.
  unfold trimmed_or_empty.
  destruct (last_capture styleRegex _), (last_capture domainRegex _),
    (last_capture variationRegex _); reflexivity.
Qed.

(** ** Documents put together *)

Lemma split_LF_app (a b : jsstring) :
  split_LF (a ++ LF :: b) = split_LF a ++ split_LF b.
Proof.
  induction a as [|c a IH]; [reflexivity|].
  cbn [app split_LF]. destruct (c =? LF); [now rewrite IH|].
  rewrite IH. pose proof (split_LF_nonempty a) as Hne.
  destruct (split_LF a); [congruence | reflexivity].
Qed.

Lemma forEach_app {A S R : Type} (cb : A -> S -> R * S) (l1 l2 : list A) (st : S) :
  forEach cb (l1 ++ l2) st = forEach cb l2 (forEach cb l1 st).
Proof.
  revert st. induction l1 as [|x l1 IH]; intros st; [reflexivity|].
  cbn [app forEach]. apply IH.
Qed.

(** X4. The lines of [a], a line feed and [b] are read as those of [a] and
    then those of [b], from the variables [a] leaves. Text without
    annotations, before or after, does not change the metadata. *)
Theorem metadata_of_joined_texts (this_ : This) (a b : jsstring) :
  locals_at_return this_ (a ++ LF :: b)
  = forEach (callback this_) (split_LF b) (locals_at_return this_ a) /\
  (plain_text b ->
   extractMetadata this_ (a ++ LF :: b) = extractMetadata this_ a) /\
  (plain_text a ->
   extractMetadata this_ (a ++ LF :: b) = extractMetadata this_ b).
Proof.
  assert (H : locals_at_return this_ (a ++ LF :: b)
              = forEach (callback this_) (split_LF b) (locals_at_return this_ a)).
  { unfold locals_at_return. cbv zeta. now rewrite split_LF_app, forEach_app. }
  split; [exact H|]. split; intros Hp; unfold extractMetadata; cbv zeta; rewrite H.
  - now rewrite forEach_unmatched.
  - unfold locals_at_return at 1 2 3. cbv zeta. now rewrite (forEach_unmatched this_ (split_LF a)).
Qed.

Lemma metadata_of_joined_texts_witness :
  extractMetadata module_this
    (lit "-- domain: set.domain" ++ LF :: lit "Set A, B")
  = extractMetadata module_this (lit "-- domain: set.domain") /\
  extractMetadata module_this
    (lit "Set A, B" ++ LF :: lit "-- domain: set.domain")
  = extractMetadata module_this (lit "-- domain: set.domain").
Proof.
  split.
  - apply (metadata_of_joined_texts module_this
             (lit "-- domain: set.domain") (lit "Set A, B")).
    intros line Hin. vm_compute in Hin.
    destruct Hin as [<-|[]]; vm_compute; reflexivity.
  - apply (metadata_of_joined_texts module_this
             (lit "Set A, B") (lit "-- domain: set.domain")).
    intros line Hin. vm_compute in Hin.
    destruct Hin as [<-|[]]; vm_compute; reflexivity.
Defined.

(** * More of [getTrio] *)

(** X5. A read that rejects rejects [getTrio] with the same error. When it
    is the read of the style, the domain is not read at all; when it is
    the read of the domain, both reads have been made and the body of the
    style is lost. *)
Theorem rejected_read_rejects_getTrio {W : Type} (this_ : This) (source : jsstring)
    (readFile : jsstring -> Async W jsstring) (w : W) :
  (forall e w1,
     readFile (style (locals_at_return this_ source)) w = (Rejected e, w1) ->
     getTrio this_ source readFile w = (Rejected e, w1) /\
     snd (snd (getTrio this_ source (spy readFile) (w, [])))
     = [style (locals_at_return this_ source)]) /\
  (forall s e w1 w2,
     readFile (style (locals_at_return this_ source)) w = (Fulfilled s, w1) ->
     readFile (domain (locals_at_return this_ source)) w1 = (Rejected e, w2) ->
     getTrio this_ source readFile w = (Rejected e, w2) /\
     snd (snd (getTrio this_ source (spy readFile) (w, [])))
     = [style (locals_at_return this_ source);
        domain (locals_at_return this_ source)]).
Proof.
  split.
  - intros e w1 H. rewrite !getTrio_unfold, spy_call, H. split; reflexivity.
  - intros s e w1 w2 H1 H2. rewrite !getTrio_unfold, spy_call, H1.
    cbn [fst snd]. rewrite spy_call, H2. split; reflexivity.
Qed.

Lemma rejected_read_rejects_getTrio_witness :
  getTrio module_this (lit "-- style: S1") rejecting_reader []
  = (Rejected (HostError (lit "S1")), [lit "S1"]) /\
  getTrio module_this (lit "-- style: S1")
    (fun path w => match path with
                   | [] => (Rejected (HostError path), w ++ [path])
                   | _ => (Fulfilled path, w ++ [path])
                   end) []
  = (Rejected (HostError []), [lit "S1"; []]).
Proof.
  split.
  - apply (proj1 (rejected_read_rejects_getTrio module_this (lit "-- style: S1")
                    rejecting_reader [])).
    vm_compute. reflexivity.
  - apply (proj2 (rejected_read_rejects_getTrio module_this (lit "-- style: S1")
                    (fun path w => match path with
                                   | [] => (Rejected (HostError path), w ++ [path])
                                   | _ => (Fulfilled path, w ++ [path])
                                   end) []) (lit "S1") (HostError []) [lit "S1"]).
    + vm_compute. reflexivity.
    + vm_compute. reflexivity.
Defined.

(** * The code block processor *)

Section ProcessorFacts.

Context {Compiled Optimized PenroseError SVG : Type}.
Variable compile : Trio.t -> Promise (Result Compiled PenroseError).
Variable optimize : Compiled -> Result Optimized PenroseError.
Variable showError : PenroseError -> jsstring.
Variable toSVG : Optimized -> Promise SVG.
Variable ToString : Exn -> jsstring.

#[local] Abbreviation view := (@View PenroseError SVG).
#[local] Abbreviation reader := (@onload_readFile PenroseError SVG ToString).

(** The reader has two ways out: the contents of a file that was read, with
    the view as it was; or the empty string with one message about the path
    added to the block, and to the console when the read itself failed. *)
Lemma onload_readFile_cases (app : App) (path : jsstring) (v : view) :
  (exists file contents,
     getAbstractFileByPath (vault app) path = Some (IsFile file) /\
     read (vault app) file = Fulfilled contents /\
     reader app path v = (Fulfilled contents, v)) \/
  (exists tail,
     reader app path v
     = (Fulfilled [],
        {| el := el v ++ [TextNode (lit "Error reading file " ++ path ++ tail)];
           console :=
             match getAbstractFileByPath (vault app) path with
             | Some (IsFile _) =>
                 console v ++ [LogText (lit "Error reading file " ++ path ++ tail)]
             | _ => console v
             end |}) /\
     (forall file contents,
        getAbstractFileByPath (vault app) path = Some (IsFile file) ->
        read (vault app) file <> Fulfilled contents)).
Proof.
  unfold onload_readFile.
  destruct (getAbstractFileByPath (vault app) path) as [[file|]|] eqn:E.
  - destruct (read (vault app) file) as [contents|error] eqn:R.
    + left. now exists file, contents.
    + right. exists (lit ": " ++ ToString error). split; [reflexivity|].
      intros file' contents H. inversion H; subst file'. rewrite R. discriminate.
  - right. exists []. rewrite app_nil_r. split; [reflexivity | discriminate].
  - right. exists []. rewrite app_nil_r. split; [reflexivity | discriminate].
Qed.


(** The reads of the processor always leave a trio, and at most two nodes
    more in the block. *)
Lemma getTrio_with_onload_reader (app : App) (source : jsstring) (v : view) :
  exists trio v1 msgs,
    getTrio module_this source (reader app) v = (Fulfilled trio, v1) /\
    el v1 = el v ++ msgs /\ (length msgs <= 2)%nat.
Proof.
  rewrite getTrio_unfold.
  destruct (onload_readFile_cases app (style (locals_at_return module_this source)) v)
    as [(f1 & c1 & _ & _ & ->)|(t1 & -> & _)];
  match goal with
  | |- context [reader app (domain (locals_at_return module_this source)) ?v1] =>
      destruct (onload_readFile_cases app
                  (domain (locals_at_return module_this source)) v1)
        as [(f2 & c2 & _ & _ & ->)|(t2 & -> & _)]
  end.
  - eexists _, _, []. rewrite app_nil_r. repeat split. cbn. lia.
  - eexists _, _, [_]. cbn [el length]. repeat split. lia.
  - eexists _, _, [_]. cbn [el length]. repeat split. lia.
  - eexists _, _, [_; _]. cbn [el length]. rewrite <- app_assoc. repeat split. lia.
Qed.

(** X7. With the reader of the processor [getTrio] is always fulfilled: the
    substance of its trio is the source, and the block has got at most two
    nodes more, each a message of the reader. *)
Theorem processor_trio_is_always_there (app : App) (source : jsstring) (v : view) :
  exists trio v1 msgs,
    getTrio module_this source (reader app) v = (Fulfilled trio, v1) /\
    Trio.substance trio = source /\
    el v1 = el v ++ msgs /\ (length msgs <= 2)%nat /\
    Forall (fun n => exists path, read_error_node path n) msgs.
Proof.
  rewrite getTrio_unfold.
  set (s := style (locals_at_return module_this source)).
  set (d := domain (locals_at_return module_this source)).
  destruct (onload_readFile_cases app s v)
    as [(f1 & c1 & _ & _ & ->)|(t1 & -> & _)];
  match goal with
  | |- context [reader app d ?v1] =>
      destruct (onload_readFile_cases app d v1)
        as [(f2 & c2 & _ & _ & ->)|(t2 & -> & _)]
  end.
  - eexists _, _, []. rewrite app_nil_r. repeat split; auto.
  - eexists _, _, [_]. cbn [el length]. repeat split; [lia|].
    repeat constructor. exists d. now exists t2.
  - eexists _, _, [_]. cbn [el length]. repeat split; [lia|].
    repeat constructor. exists s. now exists t1.
  - eexists _, _, [_; _]. cbn [el length]. rewrite <- app_assoc.
    repeat split; [lia|].
    repeat constructor; [exists s; now exists t1 | exists d; now exists t2].
Qed.

Lemma processor_unfold (app : App) (source : jsstring) (v v1 : view) (trio : Trio.t) :
  getTrio module_this source (reader app) v = (Fulfilled trio, v1) ->
  processor compile optimize showError toSVG ToString app source v
  = render compile optimize showError toSVG trio v1.
Proof.
  intros H. unfold processor, mbind, Async_bind. now rewrite H.
Qed.

(** What [render] leaves in the block. *)
Lemma render_cases (trio : Trio.t) (v1 : view) :
  match render compile optimize showError toSVG trio v1 with
  | (Fulfilled _, v') =>
      (exists c o svg,
         compile trio = Fulfilled (Ok c) /\ optimize c = Ok o /\
         toSVG o = Fulfilled svg /\
         el v' = el v1 ++ [SVGNode svg] /\ console v' = console v1) \/
      (exists e,
         (compile trio = Fulfilled (Err e) \/
          exists c, compile trio = Fulfilled (Ok c) /\ optimize c = Err e) /\
         el v' = el v1 ++ [TextNode (showError e)] /\
         console v' = console v1 ++ [LogError e])
  | (Rejected x, v') =>
      v' = v1 /\
      (compile trio = Rejected x \/
       exists c o, compile trio = Fulfilled (Ok c) /\ optimize c = Ok o /\
                   toSVG o = Rejected x)
  end.
Proof.
  unfold render, mbind, Async_bind, settled.
  destruct (compile trio) as [[c|e]|x] eqn:Ec.
  - destruct (optimize c) as [o|e] eqn:Eo.
    + destruct (toSVG o) as [svg|x] eqn:Es.
      * left. exists c, o, svg. now repeat split.
      * split; [reflexivity|]. right. now exists c, o.
    + right. exists e. split; [right; now exists c | now split].
  - right. exists e. split; [now left | now split].
  - split; [reflexivity | now left].
Qed.


(** X9. The processor is rejected only when [compile] or [toSVG] is; it has
    then added nothing to the block but the messages of the reader. *)
Theorem processor_rejected_only_by_services (app : App) (source : jsstring)
    (v : view) (x : Exn) :
  fst (processor compile optimize showError toSVG ToString app source v)
  = Rejected x ->
  exists trio,
    fst (getTrio module_this source (reader app) v) = Fulfilled trio /\
    snd (processor compile optimize showError toSVG ToString app source v)
    = snd (getTrio module_this source (reader app) v) /\
    (compile trio = Rejected x \/
     exists c o, compile trio = Fulfilled (Ok c) /\ optimize c = Ok o /\
                 toSVG o = Rejected x).
Proof.
  intros Hf.
  destruct (getTrio_with_onload_reader app source v)
    as (trio & v1 & msgs & Ht & _).
  rewrite (processor_unfold app source v v1 trio Ht) in *.
  pose proof (render_cases trio v1) as Hr.
  destruct (render compile optimize showError toSVG trio v1) as [[[]|x'] v2];
    [discriminate|].
  cbn [fst] in Hf. inversion Hf; subst x'. destruct Hr as (-> & Hr).
  exists trio. rewrite Ht. cbn [fst snd]. now repeat split.
Qed.

(** X10. When the parser has found neither a style nor a domain, as for a
    document that names them through an alias only, and the vault has no
    file at the empty path, the two reads fail: the trio has an empty style
    and an empty domain, and the block gets the message of the reader
    twice, with nothing after [Error reading file]. *)
Theorem no_reference_shows_two_read_errors (app : App) (source : jsstring) (v : view) :
  style (locals_at_return module_this source) = [] ->
  domain (locals_at_return module_this source) = [] ->
  (forall file, getAbstractFileByPath (vault app) [] <> Some (IsFile file)) ->
  getTrio module_this source (reader app) v
  = (Fulfilled {| Trio.substance := source; Trio.style := []; Trio.domain := [];
                  Trio.variation := variation (locals_at_return module_this source) |},
     {| el := el v ++ [TextNode (lit "Error reading file ");
                       TextNode (lit "Error reading file ")];
        console := console v |}).
Proof.
  intros Hs Hd Hno. rewrite getTrio_unfold, Hs, Hd.
  assert (Hr : forall v0 : view,
             reader app [] v0
             = (Fulfilled [],
                {| el := el v0 ++ [TextNode (lit "Error reading file ")];
                   console := console v0 |})).
  { intros v0. unfold onload_readFile.
    destruct (getAbstractFileByPath (vault app) []) as [[file|]|] eqn:E;
      [destruct (Hno file); reflexivity | | ]; reflexivity. }
  rewrite !Hr. cbn [el console]. rewrite <- app_assoc. reflexivity.
Qed.

End ProcessorFacts.


Lemma processor_rejected_only_by_services_witness :
  exists trio,
    fst (getTrio module_this (lit "-- style: S1")
           (onload_readFile ToString_example app_D1_S1) empty_view)
    = Fulfilled trio /\
    snd (processor compile_rejecting optimize_example
           showError_example toSVG_example ToString_example app_D1_S1
           (lit "-- style: S1") empty_view)
    = snd (getTrio module_this (lit "-- style: S1")
             (onload_readFile ToString_example app_D1_S1) empty_view) /\
    (compile_rejecting trio = Rejected TypeError \/
     exists c o, compile_rejecting trio = Fulfilled (Ok c) /\
                 optimize_example c = Ok o /\ toSVG_example o = Rejected TypeError).
Proof.
  apply (processor_rejected_only_by_services compile_rejecting
           optimize_example showError_example toSVG_example ToString_example
           app_D1_S1 (lit "-- style: S1") empty_view TypeError).
  vm_compute. reflexivity.
Defined.

Lemma no_reference_shows_two_read_errors_witness :
  getTrio module_this (lit "-- alias: foo")
    (onload_readFile ToString_example app_D1_S1) empty_view
  = (Fulfilled {| Trio.substance := lit "-- alias: foo"; Trio.style := [];
                  Trio.domain := [];
                  Trio.variation :=
                    variation (locals_at_return module_this (lit "-- alias: foo")) |},
     {| el := el empty_view ++ [TextNode (lit "Error reading file ");
                                TextNode (lit "Error reading file ")];
        console := console empty_view |}).
Proof.
  apply (no_reference_shows_two_read_errors ToString_example app_D1_S1
           (lit "-- alias: foo") empty_view).
  - vm_compute. reflexivity.
  - vm_compute. reflexivity.
  - intros file. vm_compute. discriminate.
Defined.

(** * The settings *)

Lemma write_table_same (st : PluginState) (o : AliasesObject) :
  write_table o (table_of st o) st = st.
Proof. destruct st, o; reflexivity. Qed.

Lemma handler_of_apply (a : Action) (st : PluginState) :
  handler_of a st
  = match this_settings st with
    | None => (Throw TypeError, st)
    | Some so =>
        match apply_action a (table_of st (settings_aliases so)) with
        | None => (Throw TypeError, st)
        | Some table =>
            (Normal tt, save_current (write_table (settings_aliases so) table st))
        end
    end.
Proof.
  destruct a as [alias value|alias value|alias|]; cbn [handler_of apply_action];
    unfold onChange_domain, onChange_style, deleteButton_onclick, addButton_onclick;
    destruct (this_settings st) as [so|]; try reflexivity; cbv zeta;
    (destruct (table_of st (settings_aliases so) !! alias); [reflexivity|]);
    (destruct (inherited alias); [|reflexivity]);
    now rewrite write_table_same.
Qed.

Lemma written_and_saved (st : PluginState) (so : SettingsObject) (table : AliasConfig) :
  this_settings st = Some so ->
  let st' := save_current (write_table (settings_aliases so) table st) in
  let s := {| mySetting := settings_mySetting so; aliases := table |} in
  this_settings st' = Some so /\ current_table st' = table /\
  settings_of st' = Some s /\ data_json st' = Some (stored_of s).
Proof.
  intros Hso. cbv zeta. unfold save_current, settings_of, current_table.
  destruct so as [m o]. cbn [settings_aliases settings_mySetting] in *.
  destruct o; cbn [write_table this_settings]; rewrite Hso;
    cbn [settings_aliases settings_mySetting table_of default_aliases data_aliases
         saveData this_settings data_json];
    repeat split; reflexivity.
Qed.

Lemma settings_after_load (st : PluginState) (s : PenroseSettings) :
  data_json st = Some (stored_of s) -> settings_of (loadSettings st) = Some s.
Proof.
  intros H. unfold loadSettings, settings_of. rewrite H. cbn. now destruct s.
Qed.

(** X11. An edit of the settings tab that completes has saved the settings
    as they are after it, and [loadSettings] then gives these settings
    back. *)
Theorem completed_edit_is_saved_and_reloads (a : Action) (st st' : PluginState) :
  handler_of a st = (Normal tt, st') ->
  exists s,
    settings_of st' = Some s /\
    data_json st' = Some (stored_of s) /\
    settings_of (loadSettings st') = Some s.
Proof.
  rewrite handler_of_apply.
  destruct (this_settings st) as [so|] eqn:Hso; [|discriminate].
  destruct (apply_action a (table_of st (settings_aliases so))) as [table|];
    [|discriminate].
  intros H. inversion H; subst st'.
  destruct (written_and_saved st so table Hso) as (_ & _ & Hs & Hd).
  eexists. split; [exact Hs|]. split; [exact Hd|].
  now apply settings_after_load.
Qed.

(** X12. An edit throws only a TypeError, only when the settings are not
    there or when it is a change of a field of an alias the table has not,
    and it then leaves the settings and the saved data untouched. Deleting
    an alias the table has not does not throw: it leaves the table as it is
    and saves. *)
Theorem failed_edit_changes_nothing (a : Action) (st st' : PluginState) (e : Exn) :
  (handler_of a st = (Throw e, st') ->
   e = TypeError /\ st' = st /\
   (this_settings st = None \/
    exists alias value,
      (a = ChangeDomain alias value \/ a = ChangeStyle alias value) /\
      current_table st !! alias = None)) /\
  (forall alias, this_settings st <> None -> current_table st !! alias = None ->
     exists st1, handler_of (Delete alias) st = (Normal tt, st1) /\
                 current_table st1 = current_table st).
Proof.
  split.
  - rewrite handler_of_apply. unfold current_table.
    destruct (this_settings st) as [so|] eqn:Hso.
    + destruct a as [alias value|alias value|alias|]; cbn [apply_action];
        try discriminate;
        (destruct (table_of st (settings_aliases so) !! alias) eqn:El;
         [discriminate|]);
        (destruct (inherited alias); [discriminate|]);
        intros H; inversion H; subst; repeat split; right;
        exists alias, value; auto.
    + intros H. inversion H; subst. repeat split. now left.
  - intros alias Hso Hl. rewrite handler_of_apply.
    destruct (this_settings st) as [so|] eqn:Hs; [|congruence].
    cbn [apply_action]. eexists. split; [reflexivity|].
    destruct (written_and_saved st so (delete alias (table_of st (settings_aliases so))) Hs)
      as (_ & Ht & _).
    cbv zeta in Ht. rewrite Ht. unfold current_table in *. rewrite Hs in *.
    now apply delete_id.
Qed.

Lemma completed_edit_table (a : Action) (st st' : PluginState) :
  handler_of a st = (Normal tt, st') ->
  this_settings st <> None /\ this_settings st' = this_settings st /\
  apply_action a (current_table st) = Some (current_table st').
Proof.
  rewrite handler_of_apply. unfold current_table at 1.
  destruct (this_settings st) as [so|] eqn:Hso; [|discriminate].
  destruct (apply_action a (table_of st (settings_aliases so))) as [table|] eqn:Ea;
    [|discriminate].
  intros H. inversion H; subst st'.
  destruct (written_and_saved st so table Hso) as (Hs & Ht & _). cbv zeta in Hs, Ht.
  rewrite Ht. split; [discriminate|]. now split.
Qed.

Lemma add_on_loaded_plugin :
  handler_of Add (loaded_plugin None)
  = (Normal tt,
     {| default_aliases := <[lit "alias1" := empty_entry]> ∅;
        data_aliases := ∅;
        this_settings := Some {| settings_mySetting := lit "default";
                                 settings_aliases := OfDefaults |};
        data_json := Some (stored_of {| mySetting := lit "default";
                                        aliases := <[lit "alias1" := empty_entry]> ∅ |}) |}).
Proof. reflexivity. Qed.

Lemma completed_edit_is_saved_and_reloads_witness :
  exists s,
    settings_of (snd (handler_of Add (loaded_plugin None))) = Some s /\
    data_json (snd (handler_of Add (loaded_plugin None))) = Some (stored_of s) /\
    settings_of (loadSettings (snd (handler_of Add (loaded_plugin None)))) = Some s.
Proof.
  apply (completed_edit_is_saved_and_reloads Add (loaded_plugin None)).
  reflexivity.
Defined.

Lemma failed_edit_changes_nothing_witness :
  (TypeError = TypeError /\ loaded_plugin None = loaded_plugin None /\
   (this_settings (loaded_plugin None) = None \/
    exists alias value,
      (ChangeDomain (lit "alias1") (lit "D") = ChangeDomain alias value \/
       ChangeDomain (lit "alias1") (lit "D") = ChangeStyle alias value) /\
      current_table (loaded_plugin None) !! alias = None)) /\
  exists st1, handler_of (Delete (lit "alias1")) (loaded_plugin None) = (Normal tt, st1) /\
              current_table st1 = current_table (loaded_plugin None).
Proof.
  split.
  - apply (proj1 (failed_edit_changes_nothing (ChangeDomain (lit "alias1") (lit "D"))
                    (loaded_plugin None) (loaded_plugin None) TypeError)).
    reflexivity.
  - apply (proj2 (failed_edit_changes_nothing Add (loaded_plugin None)
                    (loaded_plugin None) TypeError) (lit "alias1")).
    + vm_compute. discriminate.
    + reflexivity.
Defined.

(** X13. A change of the domain that completes touches one alias at most:
    the entry of its alias, when the table has one, has the new domain and
    the style it had, the table has no entry for the alias when it had
    none, and every other alias keeps its entry; the same holds of a change
    of the style; and the delete button removes its alias and leaves every
    other alias as it is. A change for an alias of the table completes. *)
Theorem edits_touch_one_alias (alias value : jsstring) (st st' : PluginState) :
  (onChange_domain alias value st = (Normal tt, st') ->
   current_table st' !! alias = with_domain value <$> current_table st !! alias /\
   forall other, other <> alias ->
     current_table st' !! other = current_table st !! other) /\
  (onChange_style alias value st = (Normal tt, st') ->
   current_table st' !! alias = with_style value <$> current_table st !! alias /\
   forall other, other <> alias ->
     current_table st' !! other = current_table st !! other) /\
  (deleteButton_onclick alias st = (Normal tt, st') ->
   current_table st' !! alias = None /\
   forall other, other <> alias ->
     current_table st' !! other = current_table st !! other) /\
  (is_Some (current_table st !! alias) ->
   (exists st1, onChange_domain alias value st = (Normal tt, st1)) /\
   (exists st1, onChange_style alias value st = (Normal tt, st1))).
Proof.
  split; [|split; [|split]]; intros H.
  - apply (completed_edit_table (ChangeDomain alias value)) in H as (_ & _ & H).
    cbn [apply_action] in H.
    destruct (current_table st !! alias) as [entry|] eqn:E.
    + inversion H as [Ht]. split.
      * rewrite lookup_insert_eq. reflexivity.
      * intros other Hne. now apply lookup_insert_ne.
    + destruct (inherited alias); [|discriminate]. inversion H as [Ht].
      rewrite E. split; [reflexivity|]. intros other _. reflexivity.
  - apply (completed_edit_table (ChangeStyle alias value)) in H as (_ & _ & H).
    cbn [apply_action] in H.
    destruct (current_table st !! alias) as [entry|] eqn:E.
    + inversion H as [Ht]. split.
      * rewrite lookup_insert_eq. reflexivity.
      * intros other Hne. now apply lookup_insert_ne.
    + destruct (inherited alias); [|discriminate]. inversion H as [Ht].
      rewrite E. split; [reflexivity|]. intros other _. reflexivity.
  - apply (completed_edit_table (Delete alias)) in H as (_ & _ & H).
    cbn [apply_action] in H. inversion H as [Ht]. split.
    + apply lookup_delete_eq.
    + intros other Hne. now apply lookup_delete_ne.
  - destruct H as [entry He]. unfold current_table in He.
    unfold onChange_domain, onChange_style.
    destruct (this_settings st) as [so|];
      [|rewrite lookup_empty in He; discriminate].
    cbv zeta. rewrite He. split; eexists; reflexivity.
Qed.

Lemma edits_touch_one_alias_witness :
  current_table (snd (onChange_style (lit "alias2") (lit "S") plugin_with_alias2))
    !! lit "alias2"
  = with_style (lit "S") <$> current_table plugin_with_alias2 !! lit "alias2" /\
  (forall other, other <> lit "alias2" ->
     current_table (snd (onChange_style (lit "alias2") (lit "S") plugin_with_alias2))
       !! other
     = current_table plugin_with_alias2 !! other) /\
  current_table (snd (onChange_domain (lit "toString") (lit "D") plugin_with_alias2))
    !! lit "toString" = None /\
  exists st1, onChange_domain (lit "alias2") (lit "D2") plugin_with_alias2
              = (Normal tt, st1).
Proof.
  split; [|split; [|split]].
  - apply (proj1 (proj2 (edits_touch_one_alias (lit "alias2") (lit "S")
                           plugin_with_alias2
                           (snd (onChange_style (lit "alias2") (lit "S")
                                   plugin_with_alias2))))).
    vm_compute. reflexivity.
  - apply (proj1 (proj2 (edits_touch_one_alias (lit "alias2") (lit "S")
                           plugin_with_alias2
                           (snd (onChange_style (lit "alias2") (lit "S")
                                   plugin_with_alias2))))).
    vm_compute. reflexivity.
  - rewrite (proj1 (proj1 (edits_touch_one_alias (lit "toString") (lit "D")
                             plugin_with_alias2
                             (snd (onChange_domain (lit "toString") (lit "D")
                                     plugin_with_alias2))) eq_refl)).
    vm_compute. reflexivity.
  - apply (proj1 (proj2 (proj2 (proj2 (edits_touch_one_alias (lit "alias2") (lit "D2")
                                         plugin_with_alias2 plugin_with_alias2)))
                    ltac:(vm_compute; eexists; reflexivity))).
Defined.

(** X14. The add button names the new alias after the number of aliases:
    with [n] aliases in the table it writes the empty entry under [alias]
    followed by [n + 1]. Every other alias keeps its entry. When the name
    was free the table has one alias more; when the table had the name
    already, as it can after a deletion, that alias is reset to the empty
    entry and the table is no larger. *)
Theorem add_button_writes_alias_n_plus_1 (st : PluginState) :
  this_settings st <> None ->
  exists st',
    addButton_onclick st = (Normal tt, st') /\
    current_table st' !! newAliasName (size (current_table st)) = Some empty_entry /\
    (forall other, other <> newAliasName (size (current_table st)) ->
       current_table st' !! other = current_table st !! other) /\
    (current_table st !! newAliasName (size (current_table st)) = None ->
     size (current_table st') = S (size (current_table st))) /\
    (is_Some (current_table st !! newAliasName (size (current_table st))) ->
     size (current_table st') = size (current_table st)).
Proof.
  intros Hso.
  pose proof (handler_of_apply Add st) as Hh. cbn [handler_of] in Hh.
  destruct (this_settings st) as [so|] eqn:Hs; [|congruence].
  cbn [apply_action] in Hh. eexists. split; [exact Hh|].
  destruct (written_and_saved st so
              (<[newAliasName (size (table_of st (settings_aliases so))) := empty_entry]>
                 (table_of st (settings_aliases so))) Hs) as (_ & Ht & _).
  cbv zeta in Ht. rewrite Ht. unfold current_table. rewrite Hs.
  split; [apply lookup_insert_eq|]. split; [|split].
  - intros other Hne. now apply lookup_insert_ne.
  - intros Hn. now apply map_size_insert_None.
  - intros Hsome. now apply map_size_insert_Some.
Qed.

Lemma add_button_writes_alias_n_plus_1_witness :
  current_table plugin_with_alias2 !! lit "alias2"
  = Some {| Alias.domain := lit "D"; Alias.style := [] |} /\
  exists st',
    addButton_onclick plugin_with_alias2 = (Normal tt, st') /\
    current_table st' !! lit "alias2" = Some empty_entry /\
    size (current_table st') = 1%nat.
Proof.
  split; [vm_compute; reflexivity|].
  destruct (add_button_writes_alias_n_plus_1 plugin_with_alias2)
    as (st' & Hadd & Hnew & _ & _ & Hsize).
  - vm_compute. discriminate.
  - exists st'. split; [exact Hadd|]. split; [exact Hnew|].
    rewrite Hsize; [vm_compute; reflexivity|].
    vm_compute. eexists. reflexivity.
Defined.

(** ** The names the add button gives *)

Lemma lit_inj (a b : string) : lit a = lit b -> a = b.
Proof.
  unfold lit. intros H.
  apply (f_equal (List.map ascii_of_N)) in H.
  rewrite !List.map_map in H.
  rewrite !(List.map_ext _ (fun x => x) ascii_N_embedding), !List.map_id in H.
  apply (f_equal string_of_list_ascii) in H.
  now rewrite !string_of_list_ascii_of_string in H.
Qed.

Lemma newAliasName_inj (a b : nat) : newAliasName a = newAliasName b -> a = b.
Proof.
  unfold newAliasName. intros H. apply app_inv_head, lit_inj in H.
  apply (f_equal DecimalString.NilEmpty.uint_of_string) in H.
  rewrite !DecimalString.NilEmpty.usu in H. inversion H as [Hu].
  apply DecimalNat.Unsigned.to_uint_inj in Hu. lia.
Qed.

Lemma add_keeps_names (n : nat) (st : PluginState) :
  this_settings st <> None -> names_up_to n (current_table st) ->
  exists st',
    addButton_onclick st = (Normal tt, st') /\
    this_settings st' <> None /\ names_up_to (S n) (current_table st').
Proof.
  intros Hso (Hsize & Hin & Hout).
  pose proof (handler_of_apply Add st) as Hh. cbn [handler_of] in Hh.
  destruct (this_settings st) as [so|] eqn:Hs; [|congruence].
  cbn [apply_action] in Hh. eexists. split; [exact Hh|].
  destruct (written_and_saved st so
              (<[newAliasName (size (table_of st (settings_aliases so))) := empty_entry]>
                 (table_of st (settings_aliases so))) Hs) as (Hs' & Ht & _).
  cbv zeta in Hs', Ht. rewrite Hs', Ht.
  unfold current_table in Hsize, Hin, Hout. rewrite Hs in Hsize, Hin, Hout.
  set (table := table_of st (settings_aliases so)) in *. rewrite Hsize.
  assert (Hfree : table !! newAliasName n = None).
  { destruct (table !! newAliasName n) eqn:E; [|reflexivity].
    destruct (Hout (newAliasName n)) as (j & Hj & Heq); [rewrite E; now eexists|].
    apply newAliasName_inj in Heq. lia. }
  split; [discriminate|]. split; [|split].
  - rewrite map_size_insert_None by assumption. now rewrite Hsize.
  - intros j Hj. destruct (Nat.eq_dec j n) as [->|Hne].
    + apply lookup_insert_eq.
    + rewrite lookup_insert_ne; [apply Hin; lia|].
      intros Heq. apply newAliasName_inj in Heq. lia.
  - intros name Hname. destruct (decide (name = newAliasName n)) as [->|Hne].
    + exists n. split; [lia | reflexivity].
    + rewrite lookup_insert_ne in Hname by congruence.
      destruct (Hout name Hname) as (j & Hj & ->). exists j. split; [lia | reflexivity].
Qed.

Lemma adds_keep_names (k n : nat) (st : PluginState) :
  this_settings st <> None -> names_up_to n (current_table st) ->
  exists st',
    run_handlers (repeat addButton_onclick k) st = (Normal tt, st') /\
    names_up_to (n + k) (current_table st').
Proof.
  revert n st. induction k as [|k IH]; intros n st Hso Hn.
  - exists st. split; [reflexivity|]. now rewrite Nat.add_0_r.
  - destruct (add_keeps_names n st Hso Hn) as (st1 & Hadd & Hso1 & Hn1).
    destruct (IH (S n) st1 Hso1 Hn1) as (st' & Hrun & Hn').
    exists st'. cbn [repeat run_handlers]. rewrite Hadd. split; [exact Hrun|].
    now replace (n + S k)%nat with (S n + k)%nat by lia.
Qed.

(** X15. From an empty table, [k] clicks on the add button give a table of
    exactly [k] aliases, named [alias1] to [alias] followed by [k], each
    with an empty domain and an empty style: as long as nothing is deleted
    a click never reuses a name. *)
Theorem adds_from_empty_table_give_fresh_names (k : nat) (st : PluginState) :
  this_settings st <> None -> current_table st = ∅ ->
  exists st',
    run_handlers (repeat addButton_onclick k) st = (Normal tt, st') /\
    names_up_to k (current_table st').
Proof.
  intros Hso Hempty. apply (adds_keep_names k 0 st Hso).
  rewrite Hempty. split; [apply map_size_empty|]. split.
  - intros j Hj. lia.
  - intros name [entry He]. rewrite lookup_empty in He. discriminate.
Qed.

Lemma adds_from_empty_table_give_fresh_names_witness :
  exists st',
    run_handlers (repeat addButton_onclick 3) (loaded_plugin None) = (Normal tt, st') /\
    names_up_to 3 (current_table st').
Proof.
  apply (adds_from_empty_table_give_fresh_names 3 (loaded_plugin None)).
  - vm_compute. discriminate.
  - reflexivity.
Defined.

(** ** The table of the defaults *)

Lemma completed_edit_objects (a : Action) (st st' : PluginState) (so : SettingsObject) :
  this_settings st = Some so ->
  handler_of a st = (Normal tt, st') ->
  this_settings st' = Some so /\
  match settings_aliases so with
  | OfDefaults => default_aliases st' = current_table st'
  | OfData => default_aliases st' = default_aliases st
  end.
Proof.
  intros Hso. rewrite handler_of_apply, Hso.
  destruct (apply_action a (table_of st (settings_aliases so))) as [table|];
    [|discriminate].
  intros H. inversion H; subst st'.
  destruct (written_and_saved st so table Hso) as (Hs & Ht & _). cbv zeta in Hs, Ht.
  split; [exact Hs|]. rewrite Ht.
  unfold save_current, settings_of. destruct so as [m o].
  cbn [settings_aliases] in *.
  destruct o; cbn [write_table this_settings]; rewrite Hso; reflexivity.
Qed.

Lemma completed_edits_objects (actions : list Action) (st st' : PluginState)
    (so : SettingsObject) :
  this_settings st = Some so ->
  run_actions actions st = (Normal tt, st') ->
  this_settings st' = Some so /\
  match settings_aliases so with
  | OfDefaults =>
      default_aliases st = current_table st -> default_aliases st' = current_table st'
  | OfData => default_aliases st' = default_aliases st
  end.
Proof.
  unfold run_actions. revert st.
  induction actions as [|a actions IH]; intros st Hso H; cbn [map run_handlers] in H.
  - inversion H; subst st'. split; [exact Hso|].
    destruct (settings_aliases so); [tauto | reflexivity].
  - destruct (handler_of a st) as [[[]|e] st1] eqn:Ha; [|discriminate].
    destruct (completed_edit_objects a st st1 so Hso Ha) as (Hso1 & H1).
    destruct (IH st1 Hso1 H) as (Hso' & H').
    split; [exact Hso'|].
    destruct (settings_aliases so); [auto | congruence].
Qed.

(** X16. When the data loaded have no [aliases], the table of the settings
    is the very object [DEFAULT_SETTINGS.aliases], and the edits of the
    settings tab are edits of the defaults: after any edits that complete,
    one after the other, the table of the defaults is the table as edited.
    When the data have [aliases], no sequence of edits reaches the defaults,
    which stay empty. *)
Theorem edits_reach_the_defaults_without_stored_aliases
    (data : option StoredData) (actions : list Action) (st' : PluginState) :
  run_actions actions (loaded_plugin data) = (Normal tt, st') ->
  (without_aliases data -> default_aliases st' = current_table st') /\
  (~ without_aliases data -> default_aliases st' = aliases DEFAULT_SETTINGS).
Proof.
  intros H. unfold loaded_plugin in H.
  destruct data as [[m [t|]]|].
  - edestruct (completed_edits_objects actions) as (_ & Hd); [|exact H|]; [reflexivity|].
    cbn [settings_aliases] in Hd. split; [intros Hw; discriminate Hw|].
    intros _. rewrite Hd. reflexivity.
  - edestruct (completed_edits_objects actions) as (_ & Hd); [|exact H|]; [reflexivity|].
    cbn [settings_aliases stored_aliases] in Hd. split.
    + intros _. apply Hd. reflexivity.
    + intros Hw. destruct Hw. reflexivity.
  - edestruct (completed_edits_objects actions) as (_ & Hd); [|exact H|]; [reflexivity|].
    cbn [settings_aliases] in Hd. split.
    + intros _. apply Hd. reflexivity.
    + intros Hw. destruct Hw. exact I.
Qed.

Lemma edits_reach_the_defaults_without_stored_aliases_witness :
  default_aliases
    (snd (run_actions [Add; ChangeDomain (lit "alias1") (lit "D"); Add;
                       ChangeStyle (lit "alias2") (lit "S"); Delete (lit "alias1")]
            (loaded_plugin None)))
  = current_table
      (snd (run_actions [Add; ChangeDomain (lit "alias1") (lit "D"); Add;
                         ChangeStyle (lit "alias2") (lit "S"); Delete (lit "alias1")]
              (loaded_plugin None))) /\
  default_aliases
    (snd (run_actions [Add; ChangeDomain (lit "alias1") (lit "D")] (loaded_plugin None)))
    !! lit "alias1"
  = Some {| Alias.domain := lit "D"; Alias.style := [] |} /\
  default_aliases
    (snd (run_actions [Add; ChangeDomain (lit "foo") (lit "D")]
            (loaded_plugin (Some {| stored_mySetting := None;
                                    stored_aliases := Some aliases_foo |}))))
  = aliases DEFAULT_SETTINGS.
Proof.
  split; [|split].
  - apply (proj1 (edits_reach_the_defaults_without_stored_aliases None
                    [Add; ChangeDomain (lit "alias1") (lit "D"); Add;
                     ChangeStyle (lit "alias2") (lit "S"); Delete (lit "alias1")]
                    _ eq_refl)).
    exact I.
  - vm_compute. reflexivity.
  - apply (proj2 (edits_reach_the_defaults_without_stored_aliases
                    (Some {| stored_mySetting := None; stored_aliases := Some aliases_foo |})
                    [Add; ChangeDomain (lit "foo") (lit "D")] _ eq_refl)).
    cbn. discriminate.
Defined.
